(** * Session client of ion-sdk-js: registry and stream state machine

    Shallow embedding of [src/src/proto.ts] (the wire interfaces
    [TrackInfo], [MediaStreamInfo], [Notification], the class [Client] and
    the helper [objToStrMap]).

    Conventions of the embedding.
    - An optional string field ([mid?: string], [rid: string | undefined],
      ...) is an [option string]; the source tests such fields with
      [if (x)], which JavaScript accepts exactly for a defined, non-empty
      string.  [truthy] is that test.
    - A method of [Client] is a computation in the monad [M]: it reads and
      writes the fields of the client object, appends to a trace the calls
      it makes on its collaborators (event emission, [close] on a stream
      handle, requests on the signaling peer) and ends normally or by a
      thrown exception.  A throw keeps the mutations and the calls made
      before it, as in JavaScript.
    - An [await] on a collaborator ([dispatch.request],
      [RemoteStream.getRemoteMedia]) splits a method in the segment run
      before the awaited promise settles and the segment run after; the
      outcome of the awaited promise is an input of the second segment.
      [close] awaits twice, without a collaborator to wait for, but each
      [await] lets the caller go on: it is given as its parts
      ([close_locals] and [close_remotes], the two loops inside the
      [try], and [close_clear], the lines after the [catch]) and as
      their composition [close_with], the call run to its end with
      nothing in between.  The loops write no field of the client, so
      that in a run of a session [DoClose] stands for the lines after
      the [catch].
    - Calls on collaborators ([emit], [removeAllListeners],
      [dispatch.close], [close] on the handle of a [stream-remove]) are
      recorded and return normally.  Inside [close()] the source catches
      what the [close] of a handle throws: there the outcome of each
      handle's [close] is an input, [closing].
    - [this.streams] is a plain object used as a dictionary.  [streams]
      holds its own properties and [streams_proto] its prototype when a
      handle has replaced [Object.prototype]; a read falls back to the
      members inherited from [Object.prototype], a read of or an
      assignment to ["__proto__"] goes to the inherited accessor.  What a
      read or an assignment of another name finds on the members of a
      handle installed as prototype is decided by the class of the
      handle, which [./stream] defines: such a step ends in
      [Undetermined], which stands for no exception of the program, and
      the model follows the object no further.  [this.knownStreams] is a
      [Map]. *)

From Stdlib Require Import ZArith.
From stdpp Require Import gmap strings list fin_maps.

Open Scope string_scope.
Open Scope list_scope.
Open Scope stdpp_scope.

(** ** Exceptions and results *)

Inductive Exn : Type :=
  | Error (message : string)          (* [new Error(message)] *)
  | TypeError (message : string)      (* raised by the runtime *)
  | RequestError (reason : string)    (* rejection of an awaited promise *)
  | Undetermined (step : string).     (* no exception of the program: the
                                         end of a step that the sources
                                         do not determine *)

Inductive Result (A : Type) : Type :=
  | Ok (a : A)
  | Throw (e : Exn).
Arguments Ok {A} a.
Arguments Throw {A} e.

(** ** Wire data *)

Record TrackInfo : Type := mkTrackInfo {
  track_id : option string;
  track_ssrc : option Z;
  track_pt : option Z;
  track_type : string;
  track_codec : option string;
  track_fmtp : option string
}.

(** What a [tracks] object holds under a name.  [MediaStreamInfo] declares
    one [TrackInfo], the registry declares [TrackInfo[]] and [objToStrMap]
    takes [any]: both shapes reach the code. *)
Inductive TrackValue : Type :=
  | OneTrack (t : TrackInfo)
  | TrackList (ts : list TrackInfo).

Record MediaStreamInfo : Type := mkMediaStreamInfo {
  msi_rid : string;
  msi_mid : option string;
  msi_uid : string;
  msi_info : option string;
  msi_tracks : option (gmap string TrackValue);
  msi_description : option string
}.

Record Notification : Type := mkNotification {
  method : string;
  data : MediaStreamInfo
}.

(** The data of a resolved [join] request. *)
Record JoinData : Type := mkJoinData {
  pubs : option (list MediaStreamInfo)
}.

(** ** Stream handles (collaborator [./stream]) *)

(** Modelled from the spec: the [Stream] class of [./stream] is not part of
    the sources; the client reads a handle's [mid], polls
    [getIceConnectionState()] and calls [close()].  [stream_ref] is the
    identity of the object. *)
Record Stream : Type := mkStream {
  stream_ref : nat;
  stream_mid : option string;
  getIceConnectionState : option string
}.

(** ** Observable calls on collaborators *)

Inductive Event : Type :=
  | TransportOpen
  | TransportDisconnected
  | TransportClosed
  | TransportFailed (currentAttempt : Z)
  | PeerJoin (uid : string) (info : option string)
  | PeerLeave (uid : string)
  | StreamAdd (mid : option string) (uid : string)
              (info description : option string)
  | StreamRemove (stream : option Stream) (uid : string)
  | StreamRemoveInherited (member : string) (uid : string)
  | Broadcast (uid : string) (info : option string).

(** The events of the signaling peer the constructor listens to. *)
Inductive DispatchEvent : Type :=
  | DispatchOpen
  | DispatchDisconnected
  | DispatchClosed
  | DispatchFailed (currentAttempt : Z).

Record Payload : Type := mkPayload {
  p_rid : option string;
  p_uid : string;
  p_info : option string;
  p_token : option string
}.

Inductive Effect : Type :=
  | Emit (e : Event)                              (* [this.emit(...)] *)
  | Request (meth : string) (p : Payload)         (* [this.dispatch.request] *)
  | GetRemoteMedia (rid mid : string) (tracks : gmap string TrackValue)
                   (token : option string)        (* [RemoteStream.getRemoteMedia] *)
  | StreamClose (s : Stream)                      (* [stream.close()] *)
  | StreamPublish (s : Stream) (rid : string) (token : option string)
  | StreamUnpublish (s : Stream)
  | RemoveAllListeners                            (* [this.removeAllListeners()] *)
  | DispatchClose.                                (* [this.dispatch.close()] *)

(** ** The client object *)

Record Client : Type := mkClient {
  uid : string;
  rid : option string;
  localStreams : list Stream;
  streams : gmap string Stream;
  knownStreams : gmap string (gmap string TrackValue);
  roomToken : option string;
  streams_proto : option Stream
}.

(** The fields as the constructor leaves them. *)
Definition new_Client (u : string) : Client :=
  {| uid := u; rid := None; localStreams := []; streams := ∅;
     knownStreams := ∅; roomToken := None; streams_proto := None |}.

Definition set_rid (r : option string) (c : Client) : Client :=
  {| uid := uid c; rid := r; localStreams := localStreams c;
     streams := streams c; knownStreams := knownStreams c;
     roomToken := roomToken c; streams_proto := streams_proto c |}.

Definition set_roomToken (t : option string) (c : Client) : Client :=
  {| uid := uid c; rid := rid c; localStreams := localStreams c;
     streams := streams c; knownStreams := knownStreams c;
     roomToken := t; streams_proto := streams_proto c |}.

Definition set_localStreams (l : list Stream) (c : Client) : Client :=
  {| uid := uid c; rid := rid c; localStreams := l;
     streams := streams c; knownStreams := knownStreams c;
     roomToken := roomToken c; streams_proto := streams_proto c |}.

Definition set_streams (m : gmap string Stream) (c : Client) : Client :=
  {| uid := uid c; rid := rid c; localStreams := localStreams c;
     streams := m; knownStreams := knownStreams c;
     roomToken := roomToken c; streams_proto := streams_proto c |}.

Definition set_knownStreams (k : gmap string (gmap string TrackValue))
    (c : Client) : Client :=
  {| uid := uid c; rid := rid c; localStreams := localStreams c;
     streams := streams c; knownStreams := k;
     roomToken := roomToken c; streams_proto := streams_proto c |}.

Definition set_streams_proto (p : option Stream) (c : Client) : Client :=
  {| uid := uid c; rid := rid c; localStreams := localStreams c;
     streams := streams c; knownStreams := knownStreams c;
     roomToken := roomToken c; streams_proto := p |}.

(** [this.knownStreams.set(mid, trackMap)] *)
Definition knownStreams_set (mid : string) (trackMap : gmap string TrackValue)
    (c : Client) : Client :=
  set_knownStreams (<[mid := trackMap]> (knownStreams c)) c.

(** The own property [mid] of [this.streams] written. *)
Definition streams_set (mid : string) (stream : Stream) (c : Client) : Client :=
  set_streams (<[mid := stream]> (streams c)) c.

(** [delete this.streams[mid]]: an own property is removed, and a name
    that is not an own property leaves the object as it is. *)
Definition streams_delete (mid : string) (c : Client) : Client :=
  set_streams (delete mid (streams c)) c.

(** The names every plain object inherits from [Object.prototype]: eleven
    functions and the accessor [__proto__]. *)
Definition Object_prototype : list string :=
  ["constructor"; "hasOwnProperty"; "isPrototypeOf"; "propertyIsEnumerable";
   "toLocaleString"; "toString"; "valueOf";
   "__defineGetter__"; "__defineSetter__"; "__lookupGetter__";
   "__lookupSetter__"; "__proto__"].

Definition inherited (key : string) : bool :=
  existsb (String.eqb key) Object_prototype.

(** What [this.streams[key]] evaluates to. *)
Inductive Member : Type :=
  | Handle (stream : Stream)     (* the own property [key], or the handle
                                    that is the prototype, which the
                                    accessor [__proto__] returns *)
  | Inherited (name : string)    (* a member of [Object.prototype]: a
                                    function, or [Object.prototype] itself
                                    for [__proto__]; none has [close] *)
  | Undefined
  | Unknown.                     (* looked up on the members of the handle
                                    that is the prototype *)

Definition streams_get (key : string) (c : Client) : Member :=
  match streams c !! key with
  | Some stream => Handle stream
  | None =>
      match streams_proto c with
      | None => if inherited key then Inherited key else Undefined
      | Some prototype =>
          if String.eqb key "__proto__" then Handle prototype else Unknown
      end
  end.

(** ** JavaScript tests *)

(** [if (x)] on a [string | undefined]. *)
Definition truthy (x : option string) : bool :=
  match x with
  | Some EmptyString => false
  | Some _ => true
  | None => false
  end.

(** ** The monad of methods *)

Definition M (A : Type) : Type := Client → Result A * Client * list Effect.

Definition ret {A} (a : A) : M A := λ c, (Ok a, c, []).

Definition throw {A} (e : Exn) : M A := λ c, (Throw e, c, []).

Definition bind {A B} (m : M A) (k : A → M B) : M B :=
  λ c,
    match m c with
    | (Ok a, c1, t1) =>
        match k a c1 with
        | (r, c2, t2) => (r, c2, t1 ++ t2)
        end
    | (Throw e, c1, t1) => (Throw e, c1, t1)
    end.

(** [try { body } catch (error) { handler(error) }] *)
Definition try_catch {A} (body : M A) (handler : Exn → M A) : M A :=
  λ c,
    match body c with
    | (Ok a, c1, t1) => (Ok a, c1, t1)
    | (Throw e, c1, t1) =>
        match handler e c1 with
        | (r, c2, t2) => (r, c2, t1 ++ t2)
        end
    end.

Definition get : M Client := λ c, (Ok c, c, []).
Definition modify (f : Client → Client) : M unit := λ c, (Ok tt, f c, []).
Definition perform (e : Effect) : M unit := λ c, (Ok tt, c, [e]).
Definition lift {A} (r : Result A) : M A := λ c, (r, c, []).
Definition undetermined {A} (step : string) : M A :=
  λ c, (Throw (Undetermined step), c, []).

Declare Scope method_scope.
Delimit Scope method_scope with method.
Notation "'let*' x ':=' m 'in' k" := (bind m (λ x, k))
  (at level 10, x name, m at level 100, k at level 200, only parsing)
  : method_scope.
Notation "m ;; k" := (bind m (λ _, k))
  (at level 100, k at level 200, right associativity, only parsing)
  : method_scope.
Open Scope method_scope.

(** [xs.forEach(body)]: the callback runs on the elements in order and a
    throw leaves the loop. *)
Fixpoint forEach {A} (xs : list A) (body : A → M unit) : M unit :=
  match xs with
  | [] => ret tt
  | x :: rest => body x ;; forEach rest body
  end.

(** ** [objToStrMap] *)

(** [Object.keys(undefined)] is a [TypeError]; otherwise every own property
    is copied, in the order of [Object.keys], to a fresh [Map]. *)
Definition objToStrMap {V} (obj : option (gmap string V))
    : Result (gmap string V) :=
  match obj with
  | None => Throw (TypeError "Cannot convert undefined or null to object")
  | Some o =>
      Ok (foldl (λ strMap kv, <[kv.1 := kv.2]> strMap) ∅ (map_to_list o))
  end.

(** ** Methods of [Client] *)

Definition emit (e : Event) : M unit := perform (Emit e).

(** [...(token ? {token} : {})] *)
Definition spread_token (token : option string) : option string :=
  if truthy token then token else None.

(** The handlers the constructor installs with [this.dispatch.on]. *)
Definition onDispatch (e : DispatchEvent) : M unit :=
  match e with
  | DispatchOpen => emit TransportOpen
  | DispatchDisconnected => emit TransportDisconnected
  | DispatchClosed => emit TransportClosed
  | DispatchFailed currentAttempt => emit (TransportFailed currentAttempt)
  end.

Definition broadcast (info : option string) : M unit :=
  let* c := get in
  perform (Request "broadcast"
    {| p_rid := rid c; p_uid := uid c; p_info := info;
       p_token := spread_token (roomToken c) |}).

(** *** [join]

    [join_begin] runs up to the [await] of the request, [join_resolved] is
    the rest of the [try] block on the data of the response and
    [join_rejected] is what a rejected request leaves of it. *)

Definition Guest : string := "{ name: 'Guest' }".

Definition join_begin (r : string) (info token : option string) : M unit :=
  modify (set_rid (Some r)) ;;
  (if truthy token then modify (set_roomToken token) else ret tt) ;;
  let* c := get in
  perform (Request "join"
    {| p_rid := rid c; p_uid := uid c; p_info := Some (default Guest info);
       p_token := spread_token token |}).

(** The callback of [pubs.forEach]. *)
Definition join_pub (pub : MediaStreamInfo) : M unit :=
  let '(mkMediaStreamInfo _ mid uid inf tracks description) := pub in
  if truthy mid then
    match mid with
    | Some mid =>
        let* trackMap := lift (objToStrMap tracks) in
        modify (knownStreams_set mid trackMap) ;;
        emit (StreamAdd (Some mid) uid inf description)
    | None => ret tt
    end
  else ret tt.

Definition join_resolved (d : JoinData) : M unit :=
  try_catch
    (match pubs d with
     | Some pubs => forEach pubs join_pub
     | None => ret tt
     end)
    (λ error, throw error).

Definition join_rejected (error : Exn) : M unit :=
  try_catch (throw error) (λ error, throw error).

(** [join] with the outcome of its request. *)
Definition join (r : string) (info token : option string)
    (response : Result JoinData) : M unit :=
  join_begin r info token ;;
  match response with
  | Ok d => join_resolved d
  | Throw error => join_rejected error
  end.

(** *** [publish], [unpublish] (up to the call on the handle) *)

Definition publish (stream : Stream) : M unit :=
  let* c := get in
  match rid c with
  | Some r =>
      if truthy (rid c) then
        modify (λ c, set_localStreams (localStreams c ++ [stream]) c) ;;
        perform (StreamPublish stream r (roomToken c))
      else throw (Error "You must join a room before publishing.")
  | None => throw (Error "You must join a room before publishing.")
  end.

Definition unpublish (stream : option Stream) : M unit :=
  match stream with
  | None => throw (Error "Undefined LocalStream in unpublish.")
  | Some stream =>
      modify (λ c, set_localStreams
        (filter (λ localStream, stream_ref localStream ≠ stream_ref stream)
                (localStreams c)) c) ;;
      perform (StreamUnpublish stream)
  end.

(** *** [subscribe]

    [subscribe_begin] runs up to the [await] of
    [RemoteStream.getRemoteMedia]; [subscribe_resolved] stores and returns
    the stream it resolved with. *)

Definition subscribe_begin (mid : string) : M unit :=
  let* c := get in
  match rid c with
  | Some r =>
      if truthy (rid c) then
        match knownStreams c !! mid with
        | Some tracks => perform (GetRemoteMedia r mid tracks (roomToken c))
        | None => throw (Error "Subscribe mid is not known.")
        end
      else throw (Error "You must join a room before subscribing.")
  | None => throw (Error "You must join a room before subscribing.")
  end.

(** [this.streams[mid] = stream].  An own property is written where it
    is; otherwise the prototype chain is asked.  The setter of
    [__proto__] makes the handle the prototype of [this.streams] and
    creates no property.  The other members of [Object.prototype] are
    writable, so that on a plain object the assignment creates the
    property; on the members of a handle that is the prototype it may
    find a setter or a read-only member. *)
Definition streams_assign (mid : string) (stream : Stream) : M unit :=
  let* c := get in
  match streams c !! mid with
  | Some _ => modify (streams_set mid stream)
  | None =>
      if String.eqb mid "__proto__"
      then modify (set_streams_proto (Some stream))
      else
        match streams_proto c with
        | None => modify (streams_set mid stream)
        | Some _ => undetermined "this.streams[mid] = stream"
        end
  end.

Definition subscribe_resolved (mid : string) (stream : Stream) : M Stream :=
  streams_assign mid stream ;;
  ret stream.

Definition subscribe_rejected (error : Exn) : M Stream := throw error.

(** [subscribe] with the outcome of [getRemoteMedia], nothing else running
    in between. *)
Definition subscribe (mid : string) (media : Result Stream) : M Stream :=
  subscribe_begin mid ;;
  match media with
  | Ok stream => subscribe_resolved mid stream
  | Throw error => subscribe_rejected error
  end.

(** *** [close], [leave] *)

(** What has settled first of two callbacks of a [Promise.all]. *)
Definition first_settled {A} (r r' : Result A) : Result A :=
  match r with
  | Ok _ => r'
  | Throw e => Throw e
  end.

(** [await Promise.all(xs.map(async x => body(x)))] with a synchronous
    body: every callback runs, and the first throw, if any, is raised once
    all have run. *)
Fixpoint promiseAllMap {A} (xs : list A) (body : A → M unit) : M unit :=
  match xs with
  | [] => ret tt
  | x :: rest =>
      λ c,
        match body x c with
        | (r, c1, t1) =>
            match promiseAllMap rest body c1 with
            | (r', c2, t2) =>
                (first_settled r r', c2, t1 ++ t2)
            end
        end
  end.

(** [Object.values(this.streams)].  The values come in the order of the
    map, which need not be the insertion order of the object; no property
    below depends on the order. *)
Definition Object_values {V} (o : gmap string V) : list V :=
  (map_to_list o).*2.

(** The callback of both loops of [close()]; [closing stream] is how
    [stream.close()] ends. *)
Definition close_handle (closing : Stream → Result unit) (stream : Stream)
    : M unit :=
  if truthy (stream_mid stream)
  then perform (StreamClose stream) ;; lift (closing stream)
  else ret tt.

(** The [try] of [close()] up to its first [await]. *)
Definition close_locals (closing : Stream → Result unit) : M unit :=
  let* c := get in
  promiseAllMap (localStreams c) (close_handle closing).

(** From the first [await] to the second. *)
Definition close_remotes (closing : Stream → Result unit) : M unit :=
  let* c := get in
  promiseAllMap (Object_values (streams c)) (close_handle closing).

(** The [try] and its [catch]: a rejected first [await] leaves the [try]
    before the second loop. *)
Definition close_streams (closing : Stream → Result unit) : M unit :=
  try_catch
    (close_locals closing ;; close_remotes closing)
    (λ error, ret tt).

(** The lines after the [catch]; [this.streams = {}] is a fresh object on
    [Object.prototype]. *)
Definition close_clear : M unit :=
  modify (set_localStreams []) ;;
  modify (λ c, set_streams_proto None (set_streams ∅ c)) ;;
  modify (set_knownStreams ∅) ;;
  perform RemoveAllListeners ;;
  perform DispatchClose.

Definition close_with (closing : Stream → Result unit) : M unit :=
  close_streams closing ;;
  close_clear.

(** Every handle closes normally. *)
Definition closes_normally : Stream → Result unit := λ _, Ok tt.

(** [close()] when the [close] of every handle returns. *)
Definition close : M unit := close_with closes_normally.

Definition leave_begin : M unit :=
  let* c := get in
  perform (Request "leave"
    {| p_rid := rid c; p_uid := uid c; p_info := None;
       p_token := spread_token (roomToken c) |}).

Definition leave_settled_with (closing : Stream → Result unit)
    (response : Result unit) : M unit :=
  try_catch (lift response) (λ error, ret tt) ;;
  close_with closing.

Definition leave_settled (response : Result unit) : M unit :=
  leave_settled_with closes_normally response.

(** [leave] with the outcome of its request and of the closes. *)
Definition leave_with (closing : Stream → Result unit)
    (response : Result unit) : M unit :=
  leave_begin ;; leave_settled_with closing response.

(** [leave] with the outcome of its request, every handle closing
    normally. *)
Definition leave (response : Result unit) : M unit :=
  leave_with closes_normally response.

(** *** Connectivity *)

Definition failedStatuses : list string := ["closed"; "disconnected"; "failed"].

Definition includes (l : list string) (x : string) : bool :=
  existsb (String.eqb x) l.

Definition isStreamIceConnected (c : Client) (local : bool) : bool :=
  let streams := if local then localStreams c else Object_values (streams c) in
  foldl (λ connected stream,
           match getIceConnectionState stream with
           | Some state =>
               if truthy (Some state)
               then connected && negb (includes failedStatuses state)
               else false
           | None => false
           end)
        true streams.

Definition streamsConnected (c : Client) : bool :=
  isStreamIceConnected c true && isStreamIceConnected c false.

(** *** [onNotification] *)

(** The property key of [this.streams[mid!]]: the non-null assertion is
    erased, and an undefined key is converted to a string. *)
Definition prop_key (mid : option string) : string := default "undefined" mid.

Definition onNotification (notification : Notification) : M unit :=
  let '(mkNotification method data) := notification in
  let '(mkMediaStreamInfo _ mid uid info tracks description) := data in
  if String.eqb method "peer-join" then
    emit (PeerJoin uid info)
  else if String.eqb method "peer-leave" then
    emit (PeerLeave uid)
  else if String.eqb method "stream-add" then
    (if truthy mid then
       match mid with
       | Some mid =>
           let* trackMap := lift (objToStrMap tracks) in
           modify (knownStreams_set mid trackMap)
       | None => ret tt
       end
     else ret tt) ;;
    emit (StreamAdd mid uid info description)
  else if String.eqb method "stream-remove" then
    let* c := get in
    match streams_get (prop_key mid) c with
    | Handle stream =>
        emit (StreamRemove (Some stream) uid) ;;
        perform (StreamClose stream) ;;
        modify (streams_delete (prop_key mid))
    | Inherited member =>
        emit (StreamRemoveInherited member uid) ;;
        throw (TypeError "stream.close is not a function")
    | Undefined =>
        emit (StreamRemove None uid) ;;
        throw (TypeError "Cannot read properties of undefined (reading 'close')")
    | Unknown => undetermined "this.streams[mid]"
    end
  else if String.eqb method "broadcast" then
    emit (Broadcast uid info)
  else ret tt.

(** *** The constructor

    [new URL], [uuidv4] and the classes set up by the constructor belong to
    libraries: the parser of [new URL] and the identifier [uuidv4()] would
    return are arguments, and the calls on the libraries are listed in the
    order the constructor makes them. *)

Record Url : Type := mkUrl {
  href : string;
  searchParams : list (string * string)
}.

(** [url.searchParams.append(name, value)] *)
Definition searchParams_append (name value : string) (url : Url) : Url :=
  {| href := href url; searchParams := searchParams url ++ [(name, value)] |}.

Record Config : Type := mkConfig {
  cfg_url : option string;
  cfg_uid : option string;
  cfg_options : option string;
  cfg_rtc : option string;
  cfg_loglevel : option string;
  cfg_accessToken : option string
}.

Inductive Setup : Type :=
  | NewWebSocketTransport (url : Url) (options : option string)
  | LogSetLevel (level : string)
  | NewPeer
  | SetRTCConfiguration (rtc : string)
  | StreamSetDispatch
  | DispatchOn (event : string).

Definition constructor (new_URL : string → Result Url) (uuidv4 : string)
    (config : option Config) : Result (Client * list Setup) :=
  match config with
  | None => Throw (TypeError "Cannot read properties of undefined (reading 'uid')")
  | Some config =>
      let uid :=
        match cfg_uid config with
        | Some u => if truthy (Some u) then u else uuidv4
        | None => uuidv4
        end in
      match cfg_url config with
      | Some h =>
          if truthy (Some h) then
            match new_URL h with
            | Throw e => Throw e
            | Ok url =>
                let url := searchParams_append "peer" uid url in
                let url :=
                  match cfg_accessToken config with
                  | Some accessToken =>
                      if truthy (Some accessToken)
                      then searchParams_append "access_token" accessToken url
                      else url
                  | None => url
                  end in
                Ok (new_Client uid,
                    [NewWebSocketTransport url (cfg_options config);
                     LogSetLevel (default "WARN" (cfg_loglevel config));
                     NewPeer]
                    ++ match cfg_rtc config with
                       | Some rtc =>
                           if truthy (Some rtc) then [SetRTCConfiguration rtc]
                           else []
                       | None => []
                       end
                    ++ [StreamSetDispatch;
                        DispatchOn "open"; DispatchOn "disconnected";
                        DispatchOn "close"; DispatchOn "failed";
                        DispatchOn "request"; DispatchOn "notification"])
            end
          else Throw (Error "Undefined config or config.url in ion-sdk.")
      | None => Throw (Error "Undefined config or config.url in ion-sdk.")
      end
  end.

(** * Vocabulary of the properties *)

(** ** Descriptors, [join] *)

(** The event that announces a descriptor. *)
Definition stream_add_event (d : MediaStreamInfo) : Event :=
  StreamAdd (msi_mid d) (msi_uid d) (msi_info d) (msi_description d).

(** The fields a registry update leaves alone. *)
Definition same_session (c c' : Client) : Prop :=
  uid c' = uid c ∧ rid c' = rid c ∧ roomToken c' = roomToken c ∧
  localStreams c' = localStreams c ∧ streams c' = streams c ∧
  streams_proto c' = streams_proto c.

(** A descriptor the loop of [join] can process: if its [mid] passes the
    test, it has a [tracks] object. *)
Definition carries_tracks (pub : MediaStreamInfo) : Prop :=
  truthy (msi_mid pub) = true → is_Some (msi_tracks pub).

(** A descriptor on which the loop of [join] throws. *)
Definition faulting (pub : MediaStreamInfo) : Prop :=
  truthy (msi_mid pub) = true ∧ msi_tracks pub = None.

(** The emission a descriptor gives rise to in [join]. *)
Definition announced (pub : MediaStreamInfo) : option Effect :=
  if truthy (msi_mid pub) then Some (Emit (stream_add_event pub)) else None.

(** [pub] is a descriptor of the stream [k]. *)
Definition names (k : string) (pub : MediaStreamInfo) : Prop :=
  msi_mid pub = Some k ∧ k ≠ "".

#[global] Instance names_dec k pub : Decision (names k pub).
Proof. unfold names. apply _. Defined.

(** The state [join] leaves when it reaches the [await] of its request, and
    the request it has sent by then. *)
Definition joining (r : string) (token : option string) (c : Client) : Client :=
  if truthy token then set_roomToken token (set_rid (Some r) c)
  else set_rid (Some r) c.

Definition join_request (r : string) (info token : option string)
    (c : Client) : Effect :=
  Request "join"
    {| p_rid := Some r; p_uid := uid c; p_info := Some (default Guest info);
       p_token := spread_token token |}.

(** [registry.get(mid).get(name)] *)
Definition registry_track (c : Client) (mid name : string) : option TrackValue :=
  knownStreams c !! mid ≫= λ trackMap, trackMap !! name.

(** ** [close], connectivity *)

(** A handle whose [mid] passes the test [if (stream.mid)]. *)
Definition assigned (s : Stream) : Prop := truthy (stream_mid s) = true.

#[global] Instance assigned_dec s : Decision (assigned s).
Proof. unfold assigned. apply _. Defined.

(** The state [close] leaves. *)
Definition closed (c : Client) : Client :=
  set_knownStreams ∅
    (set_streams_proto None (set_streams ∅ (set_localStreams [] c))).

(** An ICE connection state that counts as connected: it is reported (the
    source's test [if (state)] accepts it) and is none of the failed
    statuses. *)
Definition connected_state (state : option string) : Prop :=
  ∃ x, state = Some x ∧ x ≠ "" ∧ x ∉ failedStatuses.

(** The handles [isStreamIceConnected(local)] polls. *)
Definition polled (c : Client) (local : bool) : list Stream :=
  if local then localStreams c else Object_values (streams c).

(** The test the loop of [isStreamIceConnected] applies to one handle. *)
Definition state_ok (s : Stream) : bool :=
  match getIceConnectionState s with
  | Some state =>
      if truthy (Some state) then negb (includes failedStatuses state)
      else false
  | None => false
  end.

(** ** Runs of a session

    The segments of the methods, in any order the event loop may run them.
    [awaiting] holds the [mid] of every [subscribe] call that has reached
    its [await] and whose stream has not been delivered yet. *)

Record Session : Type := mkSession {
  client : Client;
  awaiting : list string
}.

Inductive Action : Type :=
  | DoDispatch (e : DispatchEvent)
  | DoJoinBegin (r : string) (info token : option string)
  | DoJoinResolved (d : JoinData)
  | DoJoinRejected (error : Exn)
  | DoNotification (n : Notification)
  | DoBroadcast (info : option string)
  | DoPublish (stream : Stream)
  | DoUnpublish (stream : option Stream)
  | DoSubscribeBegin (mid : string)
  | DoSubscribeResolved (mid : string) (stream : Stream)
  | DoSubscribeRejected (mid : string) (error : Exn)
  | DoLeaveBegin
  | DoLeaveSettled (response : Result unit)
  | DoClose.

(** The client a method leaves, however it ends. *)
Definition state_after {A} (m : M A) (c : Client) : Client := (m c).1.2.

Fixpoint remove_first (x : string) (l : list string) : list string :=
  match l with
  | [] => []
  | y :: l' => if decide (x = y) then l' else y :: remove_first x l'
  end.

Definition run (a : Action) (s : Session) : Session :=
  let c := client s in
  match a with
  | DoDispatch e => mkSession (state_after (onDispatch e) c) (awaiting s)
  | DoJoinBegin r info token =>
      mkSession (state_after (join_begin r info token) c) (awaiting s)
  | DoJoinResolved d => mkSession (state_after (join_resolved d) c) (awaiting s)
  | DoJoinRejected e => mkSession (state_after (join_rejected e) c) (awaiting s)
  | DoNotification n => mkSession (state_after (onNotification n) c) (awaiting s)
  | DoBroadcast info => mkSession (state_after (broadcast info) c) (awaiting s)
  | DoPublish stream => mkSession (state_after (publish stream) c) (awaiting s)
  | DoUnpublish stream =>
      mkSession (state_after (unpublish stream) c) (awaiting s)
  | DoSubscribeBegin mid =>
      match subscribe_begin mid c with
      | (Ok _, c', _) => mkSession c' (mid :: awaiting s)
      | (Throw _, c', _) => mkSession c' (awaiting s)
      end
  | DoSubscribeResolved mid stream =>
      mkSession (state_after (subscribe_resolved mid stream) c)
                (remove_first mid (awaiting s))
  | DoSubscribeRejected mid e =>
      mkSession (state_after (subscribe_rejected e) c)
                (remove_first mid (awaiting s))
  | DoLeaveBegin => mkSession (state_after leave_begin c) (awaiting s)
  | DoLeaveSettled response =>
      mkSession (state_after (leave_settled response) c) (awaiting s)
  | DoClose => mkSession (state_after close c) (awaiting s)
  end.

(** A stream is delivered only to a [subscribe] that awaits it.  With
    [overlap = false] the teardown ([close], and [leave] once its request
    has settled) runs only while no [subscribe] is awaiting its stream. *)
Definition enabled (overlap : bool) (a : Action) (s : Session) : Prop :=
  match a with
  | DoSubscribeResolved mid _ | DoSubscribeRejected mid _ => mid ∈ awaiting s
  | DoClose | DoLeaveSettled _ => overlap = true ∨ awaiting s = []
  | _ => True
  end.

Inductive reachable (overlap : bool) : Session → Prop :=
  | reachable_new (u : string) :
      reachable overlap (mkSession (new_Client u) [])
  | reachable_run (s : Session) (a : Action) :
      reachable overlap s → enabled overlap a s →
      reachable overlap (run a s).

(** Every subscribed [mid], and every [mid] whose stream is awaited, is a
    key of the registry. *)
Definition subscriptions_known (s : Session) : Prop :=
  (∀ k, is_Some (streams (client s) !! k) →
        is_Some (knownStreams (client s) !! k))
  ∧ (∀ k, k ∈ awaiting s → is_Some (knownStreams (client s) !! k)).

(** [c'] has the subscriptions of [c] and at least its registry keys. *)
Definition registry_grows (c c' : Client) : Prop :=
  streams c' = streams c
  ∧ ∀ k, is_Some (knownStreams c !! k) → is_Some (knownStreams c' !! k).

(** ** Frames *)

(** [c'] is in the room of [c], under the same identity and token. *)
Definition keeps_room (c c' : Client) : Prop :=
  uid c' = uid c ∧ rid c' = rid c ∧ roomToken c' = roomToken c.

(** The calls [close] makes on the handles of a list. *)
Definition closes (l : list Stream) : list Effect :=
  StreamClose <$> filter assigned l.

(** [stream.close()] returns. *)
Definition close_returns (closing : Stream → Result unit) (s : Stream) : bool :=
  match closing s with
  | Ok _ => true
  | Throw _ => false
  end.

(** No call of the first loop of [close()] throws. *)
Definition locals_close (closing : Stream → Result unit) (c : Client) : bool :=
  forallb (close_returns closing) (filter assigned (localStreams c)).

(** What the first [await] of [close()] gives: the first throw of the
    calls made on the handles of a list. *)
Definition settle_all (closing : Stream → Result unit) (l : list Stream)
    : Result unit :=
  foldr (λ s r, first_settled (closing s) r) (Ok tt) (filter assigned l).

(** A method segment other than the first of [join]. *)
Definition not_join_begin (a : Action) : Prop :=
  match a with
  | DoJoinBegin _ _ _ => False
  | _ => True
  end.

(** ** Sample data: the scenarios of the specification *)

Definition track_t1 : TrackInfo :=
  {| track_id := Some "t1"; track_ssrc := None; track_pt := None;
     track_type := "audio"; track_codec := None; track_fmtp := None |}.

Definition pub_m1 : MediaStreamInfo :=
  {| msi_rid := "r1"; msi_mid := Some "m1"; msi_uid := "u2";
     msi_info := None; msi_tracks := Some {[ "audio" := OneTrack track_t1 ]};
     msi_description := None |}.

Definition pub_no_mid : MediaStreamInfo :=
  {| msi_rid := "r1"; msi_mid := None; msi_uid := "u3";
     msi_info := None; msi_tracks := None; msi_description := None |}.

Definition pub_no_tracks : MediaStreamInfo :=
  {| msi_rid := "r1"; msi_mid := Some "m0"; msi_uid := "u4";
     msi_info := None; msi_tracks := None; msi_description := None |}.

Definition client_u1 : Client := new_Client "u1".

(** [client_u1] after [join("r1")] resolved without [pubs]. *)
Definition client_r1 : Client := set_rid (Some "r1") client_u1.

Definition stream_add_m1 : Notification :=
  {| method := "stream-add"; data := pub_m1 |}.

Definition stream_add_no_mid : Notification :=
  {| method := "stream-add"; data := pub_no_mid |}.

Definition stream_add_no_tracks : Notification :=
  {| method := "stream-add"; data := pub_no_tracks |}.

Definition remote_7 : Stream :=
  {| stream_ref := 7; stream_mid := Some "m1";
     getIceConnectionState := Some "connected" |}.

Definition remote_9 : Stream :=
  {| stream_ref := 9; stream_mid := Some "m1";
     getIceConnectionState := Some "new" |}.

(** [client_r1] once it knows the stream ["m1"] and has subscribed to it. *)
Definition client_subscribed : Client :=
  streams_set "m1" remote_7
    (knownStreams_set "m1" {[ "audio" := OneTrack track_t1 ]} client_r1).

Definition stream_remove_m1 : Notification :=
  {| method := "stream-remove";
     data := {| msi_rid := "r1"; msi_mid := Some "m1"; msi_uid := "u2";
                msi_info := None; msi_tracks := None;
                msi_description := None |} |}.

Definition stream_remove_toString : Notification :=
  {| method := "stream-remove";
     data := {| msi_rid := "r1"; msi_mid := Some "toString"; msi_uid := "u2";
                msi_info := None; msi_tracks := None;
                msi_description := None |} |}.

Definition stream_remove_proto : Notification :=
  {| method := "stream-remove";
     data := {| msi_rid := "r1"; msi_mid := Some "__proto__"; msi_uid := "u2";
                msi_info := None; msi_tracks := None;
                msi_description := None |} |}.

Definition local_3 : Stream :=
  {| stream_ref := 3; stream_mid := Some "l3";
     getIceConnectionState := Some "connected" |}.

Definition remote_failed : Stream :=
  {| stream_ref := 8; stream_mid := Some "m2";
     getIceConnectionState := Some "failed" |}.

(** The run: join ["r1"], learn of the stream ["m1"], call
    [subscribe("m1")], call [close()] while the stream is awaited, then
    the stream is delivered. *)
Definition overlapping_run : list Action :=
  [ DoJoinBegin "r1" None None;
    DoJoinResolved (mkJoinData None);
    DoNotification stream_add_m1;
    DoSubscribeBegin "m1";
    DoClose;
    DoSubscribeResolved "m1" remote_7 ].

Definition after_overlapping_run : Session :=
  foldl (λ s a, run a s) (mkSession client_u1 []) overlapping_run.

(** [client_r1] once it knows of a stream whose [mid] is ["__proto__"]. *)
Definition client_knows_proto : Client :=
  knownStreams_set "__proto__" {[ "audio" := OneTrack track_t1 ]} client_r1.

(** The [close] of [local_3] throws, every other one returns. *)
Definition local_3_fails (s : Stream) : Result unit :=
  if decide (stream_ref s = 3) then Throw (Error "close failed") else Ok tt.


Definition local_unassigned : Stream :=
  {| stream_ref := 4; stream_mid := None; getIceConnectionState := Some "new" |}.

(** [client_r1] holding the token of its room. *)
Definition client_with_token : Client := set_roomToken (Some "secret") client_r1.

(** * Properties *)

(** ** Basic facts *)

Lemma truthy_spec (x : option string) :
  truthy x = true ↔ ∃ s, x = Some s ∧ s ≠ "".
Proof.
  split.
  - destruct x as [[|a s]|]; simpl; intros H; try discriminate.
    exists (String a s). split; [reflexivity | discriminate].
  - intros (s & -> & Hs). destruct s; [contradiction | reflexivity].
Qed.

Lemma truthy_Some_ne (s : string) : s ≠ "" → truthy (Some s) = true.
Proof. intros Hs. apply truthy_spec. eauto. Qed.

Lemma truthy_false_spec (x : option string) :
  truthy x = false ↔ x = None ∨ x = Some "".
Proof.
  destruct x as [[|a s]|]; simpl; split; intros H; auto;
    try discriminate; destruct H as [H|H]; discriminate.
Qed.

(** The loop of [objToStrMap] builds the map of the entries it is given. *)
Lemma foldl_insert_list_to_map {V} (l : list (string * V)) (acc : gmap string V) :
  foldl (λ strMap kv, <[kv.1 := kv.2]> strMap) acc l
  = list_to_map (reverse l) ∪ acc.
Proof.
  revert acc. induction l as [|[k v] l IH]; intros acc; simpl.
  - by rewrite (left_id_L ∅ (∪)).
  - rewrite IH, reverse_cons, list_to_map_app. simpl.
    rewrite insert_empty, <- (assoc_L (∪)).
    by rewrite <- insert_union_singleton_l.
Qed.

(** On a defined object [objToStrMap] returns a map with the same entries:
    values are copied as they are. *)
Lemma objToStrMap_Some {V} (o : gmap string V) : objToStrMap (Some o) = Ok o.
Proof.
  unfold objToStrMap. f_equal.
  rewrite foldl_insert_list_to_map, (right_id_L ∅ (∪)).
  symmetry. apply list_to_map_flip. by rewrite reverse_Permutation.
Qed.

Lemma objToStrMap_None {V} :
  objToStrMap (V := V) None
  = Throw (TypeError "Cannot convert undefined or null to object").
Proof. reflexivity. Qed.

Lemma try_catch_rethrow {A} (m : M A) (c : Client) :
  try_catch m (λ error, throw error) c = m c.
Proof.
  unfold try_catch, throw. destruct (m c) as [[[a|e] c1] t1]; [done|].
  by rewrite app_nil_r.
Qed.

Lemma forEach_app {A} (l1 l2 : list A) (body : A → M unit) (c : Client) :
  forEach (l1 ++ l2) body c = (forEach l1 body ;; forEach l2 body) c.
Proof.
  revert c. induction l1 as [|x l1 IH]; intros c; simpl.
  - unfold bind, ret. by destruct (forEach l2 body c) as [[r c2] t2].
  - unfold bind in *. destruct (body x c) as [[[[]|e] c1] t1]; [|done].
    rewrite IH.
    destruct (forEach l1 body c1) as [[[[]|e1] c2] t2]; [|done].
    destruct (forEach l2 body c2) as [[r3 c3] t3].
    by rewrite app_assoc.
Qed.

(** ** Stream descriptors: the registry entry and the event *)

Lemma same_session_refl c : same_session c c.
Proof. by repeat split. Qed.

Lemma same_session_trans c1 c2 c3 :
  same_session c1 c2 → same_session c2 c3 → same_session c1 c3.
Proof. unfold same_session. intuition congruence. Qed.

Lemma same_session_knownStreams_set m t c :
  same_session c (knownStreams_set m t c).
Proof. by repeat split. Qed.

Lemma join_pub_skip (pub : MediaStreamInfo) (c : Client) :
  truthy (msi_mid pub) = false → join_pub pub c = (Ok tt, c, []).
Proof. destruct pub as [r mid u i t d]; simpl. by intros ->. Qed.

Lemma join_pub_add (pub : MediaStreamInfo) (c : Client) m t :
  msi_mid pub = Some m → m ≠ "" → msi_tracks pub = Some t →
  join_pub pub c = (Ok tt, knownStreams_set m t c, [Emit (stream_add_event pub)]).
Proof.
  destruct pub as [r mid u i tr d]; simpl. intros -> Hm ->.
  unfold join_pub. rewrite (truthy_Some_ne m Hm).
  unfold bind, lift. by rewrite objToStrMap_Some.
Qed.

Lemma join_pub_fault (pub : MediaStreamInfo) (c : Client) :
  truthy (msi_mid pub) = true → msi_tracks pub = None →
  join_pub pub c
  = (Throw (TypeError "Cannot convert undefined or null to object"), c, []).
Proof.
  destruct pub as [r mid u i tr d]; simpl. intros Hm ->.
  unfold join_pub. rewrite Hm.
  apply truthy_spec in Hm as (m & -> & _). reflexivity.
Qed.

(** The [stream-add] case of [onNotification] is the guarded registry
    update followed by the emission. *)
Lemma onNotification_stream_add (n : Notification) (c : Client) :
  method n = "stream-add" →
  onNotification n c
  = ((if truthy (msi_mid (data n)) then
        match msi_mid (data n) with
        | Some mid =>
            let* trackMap := lift (objToStrMap (msi_tracks (data n))) in
            modify (knownStreams_set mid trackMap)
        | None => ret tt
        end
      else ret tt) ;;
     emit (stream_add_event (data n))) c.
Proof. destruct n as [me [r mid u i tr d]]; simpl. by intros ->. Qed.

(** ** [join]: the descriptors of the response *)

Lemma names_truthy k pub : names k pub → truthy (msi_mid pub) = true.
Proof. intros [-> Hk]. by apply truthy_Some_ne. Qed.

Lemma truthy_names pub :
  truthy (msi_mid pub) = true → ∃ k, names k pub.
Proof. intros (k & H & Hk)%truthy_spec. by exists k. Qed.

Lemma forEach_join_pub (ps : list MediaStreamInfo) (c : Client) :
  Forall carries_tracks ps →
  ∃ c', forEach ps join_pub c = (Ok tt, c', omap announced ps)
        ∧ same_session c c'
        ∧ ∀ k, knownStreams c' !! k
               = match last (filter (names k) ps) with
                 | Some pub => msi_tracks pub
                 | None => knownStreams c !! k
                 end.
Proof.
  intros Hps. revert c.
  induction Hps as [|pub ps Hpub Hps IH]; intros c.
  - exists c. simpl. split; [done|]. split; [apply same_session_refl|done].
  - destruct (truthy (msi_mid pub)) eqn:Hmid.
    + destruct (truthy_names pub Hmid) as (m & Hm & Hne).
      destruct (Hpub Hmid) as [t Ht].
      destruct (IH (knownStreams_set m t c)) as (c' & Hrun & Hsame & Hreg).
      exists c'. split; [|split].
      * cbn [forEach omap list_omap]. unfold bind.
        rewrite (join_pub_add pub c m t Hm Hne Ht), Hrun.
        unfold announced. by rewrite Hmid.
      * eapply same_session_trans; [apply same_session_knownStreams_set|done].
      * intros k. rewrite Hreg. destruct (decide (k = m)) as [->|Hk].
        -- rewrite filter_cons_True by done. rewrite last_cons.
           destruct (last (filter (names m) ps)); [done|].
           simpl. by rewrite lookup_insert_eq.
        -- rewrite filter_cons_False by (intros [? ?]; congruence).
           destruct (last (filter (names k) ps)); [done|].
           simpl. by rewrite lookup_insert_ne.
    + destruct (IH c) as (c' & Hrun & Hsame & Hreg).
      exists c'. split; [|split; [done|]].
      * cbn [forEach omap list_omap]. unfold bind.
        rewrite (join_pub_skip pub c Hmid), Hrun.
        unfold announced. by rewrite Hmid.
      * intros k. rewrite Hreg.
        rewrite filter_cons_False; [done|].
        intros Hn%names_truthy. congruence.
Qed.

Lemma filter_none {A} (P : A → Prop) `{∀ x, Decision (P x)} (l : list A) :
  Forall (λ x, ¬ P x) l → filter P l = [].
Proof.
  induction 1 as [|x l Hx Hl IH]; [done|].
  by rewrite filter_cons_False.
Qed.

(** C1 (amended).  When the [join] request has resolved with a [pubs]
    list in which every descriptor with a present (defined, non-empty)
    [mid] carries a [tracks] object, [join] ends normally and: it emits,
    in the order of the list, exactly one [stream-add] event
    [(mid, uid, info, description)] per descriptor with a present [mid];
    when the loop comes to such a descriptor it sets the registry entry of
    its [mid] to its track mapping and emits its event; at the end the
    entry of a [mid] is the track mapping of the last descriptor of the
    list with that [mid]; descriptors without a [mid] give no event, and
    registry keys that no descriptor names keep their entry; the other
    fields of the client are unchanged. *)
Theorem join_registers_pubs (c : Client) (ps : list MediaStreamInfo) :
  Forall carries_tracks ps →
  ∃ c',
    join_resolved (mkJoinData (Some ps)) c = (Ok tt, c', omap announced ps)
    ∧ same_session c c'
    ∧ (∀ pub m, pub ∈ ps → msi_mid pub = Some m → m ≠ "" →
         Emit (StreamAdd (Some m) (msi_uid pub) (msi_info pub)
                         (msi_description pub)) ∈ omap announced ps)
    ∧ (∀ pre pub post m,
         ps = pre ++ pub :: post → msi_mid pub = Some m → m ≠ "" →
         ∃ c1 t,
           msi_tracks pub = Some t
           ∧ forEach pre join_pub c = (Ok tt, c1, omap announced pre)
           ∧ join_pub pub c1
             = (Ok tt, knownStreams_set m t c1,
                [Emit (StreamAdd (Some m) (msi_uid pub) (msi_info pub)
                                 (msi_description pub))])
           ∧ knownStreams (knownStreams_set m t c1) !! m = Some t)
    ∧ (∀ pre pub post m,
         ps = pre ++ pub :: post → msi_mid pub = Some m → m ≠ "" →
         Forall (λ q, ¬ names m q) post →
         knownStreams c' !! m = msi_tracks pub)
    ∧ (∀ e, e ∈ omap announced ps →
         ∃ pub m, pub ∈ ps ∧ msi_mid pub = Some m ∧ m ≠ ""
                  ∧ e = Emit (StreamAdd (Some m) (msi_uid pub) (msi_info pub)
                                        (msi_description pub)))
    ∧ (∀ k, Forall (λ q, ¬ names k q) ps →
         knownStreams c' !! k = knownStreams c !! k).
Proof.
  intros Hps.
  destruct (forEach_join_pub ps c Hps) as (c' & Hrun & Hsame & Hreg).
  exists c'. split; [|split; [done|]].
  { unfold join_resolved. by rewrite try_catch_rethrow. }
  split; [|split; [|split; [|split]]].
  - intros pub m Hin Hm Hne. apply list_elem_of_omap. exists pub.
    split; [done|]. unfold announced, stream_add_event.
    rewrite Hm. by rewrite (truthy_Some_ne m Hne).
  - intros pre pub post m -> Hm Hne.
    apply Forall_app in Hps as [Hpre Hrest].
    apply Forall_cons in Hrest as [Hpub _].
    destruct (forEach_join_pub pre c Hpre) as (c1 & Hrun1 & _ & _).
    destruct (Hpub ltac:(rewrite Hm; by apply truthy_Some_ne)) as [t Ht].
    exists c1, t. split; [done|]. split; [done|]. split.
    + rewrite (join_pub_add pub c1 m t Hm Hne Ht).
      unfold stream_add_event. by rewrite Hm.
    + cbn. by rewrite lookup_insert_eq.
  - intros pre pub post m -> Hm Hne Hpost. rewrite Hreg.
    rewrite filter_app, filter_cons_True by done.
    by rewrite (filter_none _ post Hpost), last_snoc.
  - intros e (pub & Hin & He)%list_elem_of_omap. unfold announced in He.
    destruct (truthy (msi_mid pub)) eqn:Hmid; [|done].
    apply truthy_spec in Hmid as (m & Hm & Hne).
    exists pub, m. repeat split; try done.
    unfold stream_add_event in He. rewrite Hm in He. congruence.
  - intros k Hk. rewrite Hreg. by rewrite (filter_none _ ps Hk).
Qed.

Lemma join_begin_eq r info token c :
  join_begin r info token c
  = (Ok tt, joining r token c, [join_request r info token c]).
Proof.
  unfold join_begin, joining, join_request, bind, modify, get, perform, ret.
  by destruct (truthy token).
Qed.

Lemma joining_rid r token c : rid (joining r token c) = Some r.
Proof. unfold joining. by destruct (truthy token). Qed.

Lemma joining_roomToken r token c :
  roomToken (joining r token c) = if truthy token then token else roomToken c.
Proof. unfold joining. by destruct (truthy token). Qed.

Lemma joining_knownStreams r token c :
  knownStreams (joining r token c) = knownStreams c.
Proof. unfold joining. by destruct (truthy token). Qed.

Lemma joining_streams r token c : streams (joining r token c) = streams c.
Proof. unfold joining. by destruct (truthy token). Qed.

Lemma joining_localStreams r token c :
  localStreams (joining r token c) = localStreams c.
Proof. unfold joining. by destruct (truthy token). Qed.

Lemma join_eq r info token response c :
  join r info token response c
  = match
      match response with
      | Ok d => join_resolved d (joining r token c)
      | Throw error => join_rejected error (joining r token c)
      end
    with
    | (res, c', t) => (res, c', join_request r info token c :: t)
    end.
Proof.
  unfold join, bind. rewrite join_begin_eq. by destruct response.
Qed.

(** A faulting descriptor ends the loop of [join]: what was done for the
    descriptors before it stays, the ones after it are not looked at. *)
Lemma forEach_join_pub_fault (pre post : list MediaStreamInfo)
    (pub : MediaStreamInfo) (c : Client) :
  Forall carries_tracks pre →
  truthy (msi_mid pub) = true → msi_tracks pub = None →
  ∃ c1, forEach pre join_pub c = (Ok tt, c1, omap announced pre)
        ∧ forEach (pre ++ pub :: post) join_pub c
          = (Throw (TypeError "Cannot convert undefined or null to object"),
             c1, omap announced pre).
Proof.
  intros Hpre Hmid Htr.
  destruct (forEach_join_pub pre c Hpre) as (c1 & Hrun & _ & _).
  exists c1. split; [done|].
  rewrite forEach_app. unfold bind at 1. rewrite Hrun.
  cbn [forEach]. unfold bind. rewrite (join_pub_fault pub c1 Hmid Htr).
  by rewrite app_nil_r.
Qed.

Lemma carries_tracks_sample : Forall carries_tracks [pub_m1; pub_no_mid].
Proof.
  repeat constructor; unfold carries_tracks; simpl; intros; eauto; discriminate.
Defined.

Lemma join_registers_pubs_witness :
  ∃ c', join_resolved (mkJoinData (Some [pub_m1; pub_no_mid])) client_r1
        = (Ok tt, c', [Emit (StreamAdd (Some "m1") "u2" None None)])
        ∧ knownStreams c' !! "m1" = Some {[ "audio" := OneTrack track_t1 ]}.
Proof.
  destruct (join_registers_pubs client_r1 [pub_m1; pub_no_mid]
              carries_tracks_sample) as (c' & Hrun & _ & _ & _ & Hreg & _).
  exists c'. split; [exact Hrun|].
  apply (Hreg [] pub_m1 [pub_no_mid] "m1"); try reflexivity; try discriminate.
  repeat constructor. intros [H _]. discriminate H.
Defined.

(** C1 as stated fails: the server accepts the request and answers with two
    descriptors that both have a [mid]; the first has no [tracks], so
    [join] rejects, and the second, which has a [mid] and a track mapping,
    gets no registry entry and no event. *)
Lemma join_pubs_counterexample :
  let out := join "r1" None None
               (Ok (mkJoinData (Some [pub_no_tracks; pub_m1]))) client_u1 in
  msi_mid pub_m1 = Some "m1"
  ∧ out.1.1 = Throw (TypeError "Cannot convert undefined or null to object")
  ∧ knownStreams out.1.2 !! "m1" = None
  ∧ out.2 = [join_request "r1" None None client_u1].
Proof. vm_compute. by repeat split. Qed.

(** ** [onNotification]: [stream-add] *)

Lemma stream_add_registers (n : Notification) (c : Client) m t :
  method n = "stream-add" →
  msi_mid (data n) = Some m → m ≠ "" → msi_tracks (data n) = Some t →
  onNotification n c
  = (Ok tt, knownStreams_set m t c, [Emit (stream_add_event (data n))]).
Proof.
  intros Hme Hm Hne Ht. rewrite (onNotification_stream_add n c Hme).
  rewrite Hm, Ht, (truthy_Some_ne m Hne).
  unfold bind, lift. by rewrite objToStrMap_Some.
Qed.

Lemma stream_add_without_mid (n : Notification) (c : Client) :
  method n = "stream-add" → truthy (msi_mid (data n)) = false →
  onNotification n c = (Ok tt, c, [Emit (stream_add_event (data n))]).
Proof.
  intros Hme Hm. rewrite (onNotification_stream_add n c Hme). by rewrite Hm.
Qed.

Lemma stream_add_fault (n : Notification) (c : Client) :
  method n = "stream-add" →
  truthy (msi_mid (data n)) = true → msi_tracks (data n) = None →
  onNotification n c
  = (Throw (TypeError "Cannot convert undefined or null to object"), c, []).
Proof.
  intros Hme Hm Ht. rewrite (onNotification_stream_add n c Hme).
  rewrite Hm, Ht. by apply truthy_spec in Hm as (m & -> & _).
Qed.

(** C3 (amended).  A [stream-add] notification whose data has a present
    (defined, non-empty) [mid] and a [tracks] object inserts or overwrites
    the registry entry of that [mid] with the track mapping and then, in
    the updated state, emits [stream-add] with
    [(mid, uid, info, description)]; nothing else changes.  When the [mid]
    is absent the handler ends normally and has not touched the registry,
    nor any other field of the client. *)
Theorem stream_add_notification (n : Notification) (c : Client) :
  method n = "stream-add" →
  (∀ m t, msi_mid (data n) = Some m → m ≠ "" → msi_tracks (data n) = Some t →
     onNotification n c
     = emit (StreamAdd (Some m) (msi_uid (data n)) (msi_info (data n))
                       (msi_description (data n)))
            (knownStreams_set m t c)
     ∧ knownStreams (knownStreams_set m t c) !! m = Some t
     ∧ (∀ k, k ≠ m →
          knownStreams (knownStreams_set m t c) !! k = knownStreams c !! k)
     ∧ same_session c (knownStreams_set m t c))
  ∧ (truthy (msi_mid (data n)) = false →
     (onNotification n c).1.1 = Ok tt ∧ (onNotification n c).1.2 = c).
Proof.
  intros Hme. split.
  - intros m t Hm Hne Ht.
    rewrite (stream_add_registers n c m t Hme Hm Hne Ht).
    unfold stream_add_event, emit, perform. rewrite Hm.
    repeat split; simpl.
    + by rewrite lookup_insert_eq.
    + intros k Hk. by rewrite lookup_insert_ne.
  - intros Hm. by rewrite (stream_add_without_mid n c Hme Hm).
Qed.

Lemma stream_add_notification_witness :
  onNotification stream_add_m1 client_r1
  = (Ok tt,
     knownStreams_set "m1" {[ "audio" := OneTrack track_t1 ]} client_r1,
     [Emit (StreamAdd (Some "m1") "u2" None None)])
  ∧ (onNotification stream_add_no_mid client_r1).1.2 = client_r1.
Proof.
  split.
  - destruct (stream_add_notification stream_add_m1 client_r1 eq_refl)
      as [H _].
    destruct (H "m1" {[ "audio" := OneTrack track_t1 ]} eq_refl
                ltac:(discriminate) eq_refl) as [Hrun _].
    exact Hrun.
  - destruct (stream_add_notification stream_add_no_mid client_r1 eq_refl)
      as [_ H].
    exact (proj2 (H eq_refl)).
Defined.

(** C3 as stated fails twice.  A [stream-add] notification with a [mid]
    and no [tracks] writes no registry entry and emits nothing: the
    handler throws.  A [stream-add] notification without [mid] does emit
    the [stream-add] event. *)
Lemma stream_add_counterexample :
  (msi_mid (data stream_add_no_tracks) = Some "m0"
   ∧ onNotification stream_add_no_tracks client_r1
     = (Throw (TypeError "Cannot convert undefined or null to object"),
        client_r1, []))
  ∧ (msi_mid (data stream_add_no_mid) = None
     ∧ (onNotification stream_add_no_mid client_r1).2
       = [Emit (StreamAdd None "u3" None None)]).
Proof. by vm_compute. Qed.

(** ** The registry holds what the descriptor carries *)

(** C8 (amended).  After a [stream-add] notification or a [join]
    descriptor with a present [mid] and a [tracks] object, the registry
    entry of that [mid] maps every track name to the very value the
    [tracks] object holds under it: a single track object stays a single
    track object (it is not wrapped in a list), a list stays that list. *)
Theorem registry_entry_verbatim (d : MediaStreamInfo) (c : Client) m t :
  msi_mid d = Some m → m ≠ "" → msi_tracks d = Some t →
  let after_notification :=
    (onNotification {| method := "stream-add"; data := d |} c).1.2 in
  let after_join := (join_resolved (mkJoinData (Some [d])) c).1.2 in
  knownStreams after_notification !! m = Some t
  ∧ knownStreams after_join !! m = Some t
  ∧ ∀ name,
      registry_track after_notification m name = t !! name
      ∧ registry_track after_join m name = t !! name
      ∧ (∀ x, t !! name = Some (OneTrack x) →
           registry_track after_notification m name = Some (OneTrack x)
           ∧ registry_track after_join m name = Some (OneTrack x))
      ∧ (∀ xs, t !! name = Some (TrackList xs) →
           registry_track after_notification m name = Some (TrackList xs)
           ∧ registry_track after_join m name = Some (TrackList xs)).
Proof.
  intros Hm Hne Ht. cbv zeta.
  rewrite (stream_add_registers {| method := "stream-add"; data := d |}
             c m t eq_refl Hm Hne Ht).
  unfold join_resolved. rewrite try_catch_rethrow. cbn [pubs forEach].
  unfold bind. rewrite (join_pub_add d c m t Hm Hne Ht).
  unfold registry_track. simpl. rewrite lookup_insert_eq. simpl.
  repeat split; try done; by intros ? ->.
Qed.

Lemma registry_entry_verbatim_witness :
  registry_track (onNotification stream_add_m1 client_r1).1.2 "m1" "audio"
  = Some (OneTrack track_t1).
Proof.
  destruct (registry_entry_verbatim pub_m1 client_r1 "m1"
              {[ "audio" := OneTrack track_t1 ]} eq_refl
              ltac:(discriminate) eq_refl) as (_ & _ & H).
  destruct (H "audio") as (_ & _ & Hone & _).
  exact (proj1 (Hone track_t1 eq_refl)).
Defined.

(** C8 as stated fails on the scenario of the specification: the entry of
    ["m1"] maps ["audio"] to the track object, not to the list holding it. *)
Lemma registry_entry_counterexample :
  msi_tracks (data stream_add_m1) = Some {[ "audio" := OneTrack track_t1 ]}
  ∧ registry_track (onNotification stream_add_m1 client_r1).1.2 "m1" "audio"
    = Some (OneTrack track_t1)
  ∧ registry_track (onNotification stream_add_m1 client_r1).1.2 "m1" "audio"
    ≠ Some (TrackList [track_t1]).
Proof. vm_compute. by repeat split. Qed.

(** ** Descriptors without [tracks] *)

Lemma carries_or_faulting pub : carries_tracks pub ∨ faulting pub.
Proof.
  unfold carries_tracks, faulting.
  destruct (truthy (msi_mid pub)); [|by left].
  destruct (msi_tracks pub); [left; eauto | by right].
Qed.

(** The first faulting descriptor of a list that has one. *)
Lemma first_faulting (ps : list MediaStreamInfo) (pub : MediaStreamInfo) :
  pub ∈ ps → faulting pub →
  ∃ pre first post,
    ps = pre ++ first :: post ∧ Forall carries_tracks pre ∧ faulting first.
Proof.
  induction ps as [|q ps IH]; intros Hin Hf; [by apply elem_of_nil in Hin|].
  destruct (carries_or_faulting q) as [Hq|Hq].
  - apply elem_of_cons in Hin as [->|Hin].
    + destruct Hf as [Hm Ht]. destruct (Hq Hm) as [t Ht']. congruence.
    + destruct (IH Hin Hf) as (pre & first & post & -> & Hpre & Hfirst).
      exists (q :: pre), first, post.
      split; [done|]. split; [by constructor|done].
  - exists [], q, ps. split; [done|]. split; [by constructor|done].
Qed.

(** C10.  [objToStrMap] throws on an undefined [tracks]: a [stream-add]
    notification with a present [mid] and no [tracks] makes the handler
    throw before the registry is written and before anything is emitted;
    and when the [join] request resolved with a [pubs] list holding such a
    descriptor, [join] rejects with that error although the server accepted
    the request: [rid] is set, the descriptors before the first faulting
    one have been processed and the ones after it have not. *)
Theorem missing_tracks_throw (c : Client) :
  (∀ n, method n = "stream-add" →
        truthy (msi_mid (data n)) = true → msi_tracks (data n) = None →
        objToStrMap (msi_tracks (data n))
        = Throw (TypeError "Cannot convert undefined or null to object")
        ∧ onNotification n c
          = (Throw (TypeError "Cannot convert undefined or null to object"),
             c, []))
  ∧ (∀ r info token ps pub,
        pub ∈ ps →
        truthy (msi_mid pub) = true → msi_tracks pub = None →
        ∃ pre first post c1,
          ps = pre ++ first :: post
          ∧ Forall carries_tracks pre ∧ faulting first
          ∧ join r info token (Ok (mkJoinData (Some pre))) c
            = (Ok tt, c1, join_request r info token c :: omap announced pre)
          ∧ join r info token (Ok (mkJoinData (Some ps))) c
            = (Throw (TypeError "Cannot convert undefined or null to object"),
               c1, join_request r info token c :: omap announced pre)
          ∧ rid c1 = Some r).
Proof.
  split.
  - intros n Hme Hm Ht. split; [by rewrite Ht|].
    by apply stream_add_fault.
  - intros r info token ps pub Hin Hm Ht.
    destruct (first_faulting ps pub Hin (conj Hm Ht))
      as (pre & first & post & -> & Hpre & Hfirst).
    destruct Hfirst as [Hfm Hft].
    destruct (forEach_join_pub_fault pre post first (joining r token c)
                Hpre Hfm Hft) as (c1 & Hrun & Hfault).
    destruct (forEach_join_pub pre (joining r token c) Hpre)
      as (c1' & Hrun' & Hsame & _).
    assert (c1' = c1) as -> by congruence.
    exists pre, first, post, c1. rewrite !join_eq. unfold join_resolved.
    rewrite !try_catch_rethrow. cbn [pubs]. rewrite Hrun, Hfault.
    repeat split; try done.
    destruct Hsame as (_ & Hrid & _). by rewrite Hrid, joining_rid.
Qed.

Lemma missing_tracks_throw_witness :
  onNotification stream_add_no_tracks client_r1
  = (Throw (TypeError "Cannot convert undefined or null to object"),
     client_r1, [])
  ∧ (join "r1" None None
          (Ok (mkJoinData (Some [pub_m1; pub_no_tracks; pub_m1])))
          client_u1).1.1
    = Throw (TypeError "Cannot convert undefined or null to object").
Proof.
  split.
  - destruct (missing_tracks_throw client_r1) as [H _].
    exact (proj2 (H stream_add_no_tracks eq_refl eq_refl eq_refl)).
  - destruct (missing_tracks_throw client_u1) as [_ H].
    destruct (H "r1" None None [pub_m1; pub_no_tracks; pub_m1] pub_no_tracks
                ltac:(repeat constructor) eq_refl eq_refl)
      as (pre & first & post & c1 & _ & _ & _ & _ & Hrun & _).
    by rewrite Hrun.
Defined.

(** ** [onNotification]: [stream-remove] *)

Lemma onNotification_stream_remove (n : Notification) (c : Client) :
  method n = "stream-remove" →
  onNotification n c
  = match streams_get (prop_key (msi_mid (data n))) c with
    | Handle stream =>
        (Ok tt, streams_delete (prop_key (msi_mid (data n))) c,
         [Emit (StreamRemove (Some stream) (msi_uid (data n)));
          StreamClose stream])
    | Inherited member =>
        (Throw (TypeError "stream.close is not a function"),
         c, [Emit (StreamRemoveInherited member (msi_uid (data n)))])
    | Undefined =>
        (Throw (TypeError "Cannot read properties of undefined (reading 'close')"),
         c, [Emit (StreamRemove None (msi_uid (data n)))])
    | Unknown => (Throw (Undetermined "this.streams[mid]"), c, [])
    end.
Proof.
  destruct n as [me [r mid u i tr d]]; cbn [method data msi_mid msi_uid].
  intros ->. unfold onNotification. cbn [String.eqb Ascii.eqb Bool.eqb].
  unfold bind, get, emit, perform, throw, modify, undetermined.
  by destruct (streams_get (prop_key mid) c).
Qed.

Lemma streams_get_own (key : string) (c : Client) (stream : Stream) :
  streams c !! key = Some stream → streams_get key c = Handle stream.
Proof. unfold streams_get. by intros ->. Qed.

(** A handle that [this.streams[key]] yields is an own property, or is
    the prototype. *)
Lemma streams_get_Handle (key : string) (c : Client) (stream : Stream) :
  streams_get key c = Handle stream →
  streams c !! key = Some stream
  ∨ (key = "__proto__" ∧ streams c !! "__proto__" = None
     ∧ streams_proto c = Some stream).
Proof.
  unfold streams_get. destruct (streams c !! key) as [s|] eqn:Hown.
  - intros [= ->]. by left.
  - destruct (streams_proto c) as [p|].
    + destruct (String.eqb_spec key "__proto__") as [->|]; [|done].
      intros [= ->]. by right.
    + by destruct (inherited key).
Qed.

(** C4.  A [stream-remove] notification whose [mid] is a key of the
    subscribed-stream map emits [stream-remove] with the subscribed handle
    and the [uid] of the notification, then closes that handle, then
    deletes the key; the registry (its entry for that [mid] included), the
    local-stream list, [rid], the token and the other subscriptions are
    unchanged. *)
Theorem stream_remove_subscribed (n : Notification) (c : Client)
    (m : string) (h : Stream) :
  method n = "stream-remove" →
  msi_mid (data n) = Some m →
  streams c !! m = Some h →
  onNotification n c
  = (Ok tt, streams_delete m c,
     [Emit (StreamRemove (Some h) (msi_uid (data n))); StreamClose h])
  ∧ streams (streams_delete m c) !! m = None
  ∧ (∀ k, k ≠ m → streams (streams_delete m c) !! k = streams c !! k)
  ∧ knownStreams (streams_delete m c) = knownStreams c
  ∧ localStreams (streams_delete m c) = localStreams c
  ∧ rid (streams_delete m c) = rid c
  ∧ roomToken (streams_delete m c) = roomToken c
  ∧ uid (streams_delete m c) = uid c.
Proof.
  intros Hme Hm Hh. rewrite (onNotification_stream_remove n c Hme).
  rewrite Hm. change (prop_key (Some m)) with m.
  rewrite (streams_get_own m c h Hh).
  repeat split; simpl.
  - by rewrite lookup_delete_eq.
  - intros k Hk. by rewrite lookup_delete_ne.
Qed.

Lemma stream_remove_subscribed_witness :
  onNotification stream_remove_m1 client_subscribed
  = (Ok tt, streams_delete "m1" client_subscribed,
     [Emit (StreamRemove (Some remote_7) "u2"); StreamClose remote_7])
  ∧ knownStreams (streams_delete "m1" client_subscribed) !! "m1"
    = Some {[ "audio" := OneTrack track_t1 ]}.
Proof.
  destruct (stream_remove_subscribed stream_remove_m1 client_subscribed
              "m1" remote_7 eq_refl eq_refl eq_refl)
    as (Hrun & _ & _ & Hreg & _).
  split; [exact Hrun|]. rewrite Hreg. reflexivity.
Defined.

(** A name [this.streams] neither holds nor inherits reads as
    [undefined]. *)
Lemma streams_get_Undefined (key : string) (c : Client) :
  streams c !! key = None → streams_proto c = None → inherited key = false →
  streams_get key c = Undefined.
Proof. unfold streams_get. by intros -> -> ->. Qed.

(** A name [this.streams] does not hold and inherits from
    [Object.prototype] reads as the inherited member. *)
Lemma streams_get_Inherited (key : string) (c : Client) :
  streams c !! key = None → streams_proto c = None → inherited key = true →
  streams_get key c = Inherited key.
Proof. unfold streams_get. by intros -> -> ->. Qed.

(** [stream-remove] for a name that [this.streams] inherits from
    [Object.prototype]: the event carries the inherited member, which has
    no [close], and the handler ends by that [TypeError] with the client
    unchanged. *)
Lemma stream_remove_inherited (n : Notification) (c : Client) :
  method n = "stream-remove" →
  streams c !! prop_key (msi_mid (data n)) = None →
  streams_proto c = None →
  inherited (prop_key (msi_mid (data n))) = true →
  onNotification n c
  = (Throw (TypeError "stream.close is not a function"), c,
     [Emit (StreamRemoveInherited (prop_key (msi_mid (data n)))
                                  (msi_uid (data n)))]).
Proof.
  intros Hme Hh Hp Hi. rewrite (onNotification_stream_remove n c Hme).
  by rewrite (streams_get_Inherited _ c Hh Hp Hi).
Qed.

(** C9 (amended).  A [stream-remove] notification whose [mid] is not a
    key of the subscribed-stream map and is not a name that map inherits
    from [Object.prototype] (the prototype it has unless a handle was
    stored under ["__proto__"]) emits [stream-remove] with an undefined
    handle, and then [close] called on the undefined handle throws: the
    handler ends by that [TypeError] before the deletion, and the client
    (the subscribed-stream map and the registry included) is unchanged. *)
Theorem stream_remove_unsubscribed (n : Notification) (c : Client) :
  method n = "stream-remove" →
  streams c !! prop_key (msi_mid (data n)) = None →
  streams_proto c = None →
  inherited (prop_key (msi_mid (data n))) = false →
  onNotification n c
  = (Throw (TypeError "Cannot read properties of undefined (reading 'close')"),
     c, [Emit (StreamRemove None (msi_uid (data n)))])
  ∧ streams (onNotification n c).1.2 = streams c
  ∧ knownStreams (onNotification n c).1.2 = knownStreams c.
Proof.
  intros Hme Hh Hp Hi. rewrite (onNotification_stream_remove n c Hme).
  by rewrite (streams_get_Undefined _ c Hh Hp Hi).
Qed.

Lemma stream_remove_unsubscribed_witness :
  onNotification stream_remove_m1 client_r1
  = (Throw (TypeError "Cannot read properties of undefined (reading 'close')"),
     client_r1, [Emit (StreamRemove None "u2")]).
Proof.
  exact (proj1 (stream_remove_unsubscribed stream_remove_m1 client_r1
                  eq_refl eq_refl eq_refl eq_refl)).
Defined.

(** C9 as stated fails: ["toString"] is no key of the subscribed-stream
    map of [client_r1], and the [stream-remove] event of that [mid]
    carries the function [Object.prototype.toString], not an undefined
    handle; the handler ends because that function has no [close]. *)
Lemma stream_remove_counterexample :
  method stream_remove_toString = "stream-remove"
  ∧ streams client_r1 !! prop_key (msi_mid (data stream_remove_toString))
    = None
  ∧ onNotification stream_remove_toString client_r1
    = (Throw (TypeError "stream.close is not a function"), client_r1,
       [Emit (StreamRemoveInherited "toString" "u2")]).
Proof. by vm_compute. Qed.

(** ** [join]: the room and the token *)

(** C5.  [join(rid, info, token)] has assigned [rid], and the room token
    when the [token] argument passes the test [if (token)], when it sends
    its request, that is before the request resolves; the registry is
    untouched by then.  When the request is rejected, [join] throws the
    very error of the rejection and reverts nothing: [rid] and the token
    keep the values assigned at the start and the registry is unchanged. *)
Theorem join_sets_room_before_request (c : Client) (r : string)
    (info token : option string) (error : Exn) :
  join_begin r info token c
  = (Ok tt, joining r token c, [join_request r info token c])
  ∧ rid (joining r token c) = Some r
  ∧ roomToken (joining r token c)
    = (if truthy token then token else roomToken c)
  ∧ knownStreams (joining r token c) = knownStreams c
  ∧ join_rejected error (joining r token c)
    = (Throw error, joining r token c, [])
  ∧ join r info token (Throw error) c
    = (Throw error, joining r token c, [join_request r info token c]).
Proof.
  split; [apply join_begin_eq|].
  split; [apply joining_rid|].
  split; [apply joining_roomToken|].
  split; [apply joining_knownStreams|].
  split; [reflexivity|].
  by rewrite join_eq.
Qed.

(** ** [close] *)

(** The handles of the subscribed-stream map are the values stored under
    its keys. *)
Lemma elem_of_Object_values {V} (o : gmap string V) (v : V) :
  v ∈ Object_values o ↔ ∃ k, o !! k = Some v.
Proof.
  unfold Object_values. rewrite list_elem_of_fmap. split.
  - intros ([k v'] & -> & Hin). exists k. by apply elem_of_map_to_list.
  - intros (k & Hk). exists (k, v). split; [done|].
    by apply elem_of_map_to_list.
Qed.

Lemma promiseAllMap_close_handle (closing : Stream → Result unit)
    (l : list Stream) (c : Client) :
  promiseAllMap l (close_handle closing) c
  = (settle_all closing l, c, closes l).
Proof.
  unfold settle_all, closes.
  induction l as [|s l IH]; [done|].
  cbn [promiseAllMap]. unfold close_handle at 1.
  destruct (truthy (stream_mid s)) eqn:Hs.
  - rewrite !filter_cons_True by done.
    unfold bind, perform, lift. rewrite IH. cbn [foldr fmap list_fmap app].
    by destruct (closing s) as [[]|e].
  - rewrite !filter_cons_False by (unfold assigned; congruence).
    unfold ret. by rewrite IH.
Qed.

Lemma settle_all_returns (closing : Stream → Result unit) (l : list Stream) :
  match settle_all closing l with
  | Ok _ => forallb (close_returns closing) (filter assigned l) = true
  | Throw _ => forallb (close_returns closing) (filter assigned l) = false
  end.
Proof.
  unfold settle_all. induction (filter assigned l) as [|s l' IH]; [done|].
  cbn [foldr forallb]. unfold close_returns at 1 3.
  by destruct (closing s) as [[]|e].
Qed.

Lemma elem_of_close_calls (l : list Stream) (s : Stream) :
  StreamClose s ∈ closes l ↔ assigned s ∧ s ∈ l.
Proof.
  unfold closes. rewrite list_elem_of_fmap. split.
  - intros (s' & [= <-] & Hs). by apply list_elem_of_filter in Hs.
  - intros Hs. exists s. split; [done|]. by apply list_elem_of_filter.
Qed.

Lemma locals_close_spec (closing : Stream → Result unit) (c : Client) :
  locals_close closing c = true
  ↔ ∀ s, s ∈ localStreams c → truthy (stream_mid s) = true →
         closing s = Ok tt.
Proof.
  unfold locals_close. rewrite forallb_forall. split.
  - intros H s Hs Hm.
    assert (close_returns closing s = true) as Hr.
    { apply H, list_elem_of_In, list_elem_of_filter. by split. }
    unfold close_returns in Hr. by destruct (closing s) as [[]|e].
  - intros H s Hs%list_elem_of_In. apply list_elem_of_filter in Hs as [Hm Hs].
    unfold close_returns. by rewrite (H s Hs Hm).
Qed.

(** The lines of [close()] after the [catch] empty the three collections
    of whatever client they find, also when other calls have run between
    the [await]s. *)
Lemma close_clear_eq (c : Client) :
  close_clear c = (Ok tt, closed c, [RemoveAllListeners; DispatchClose]).
Proof. reflexivity. Qed.

(** [close()], whatever the closes of the handles do. *)
Lemma close_with_eq (closing : Stream → Result unit) (c : Client) :
  close_with closing c
  = (Ok tt, closed c,
     closes (localStreams c)
     ++ (if locals_close closing c
         then closes (Object_values (streams c)) else [])
     ++ [RemoveAllListeners; DispatchClose]).
Proof.
  unfold close_with, close_streams, close_locals, close_remotes, close_clear.
  unfold locals_close, try_catch, bind, get.
  rewrite !promiseAllMap_close_handle.
  pose proof (settle_all_returns closing (localStreams c)) as Hl.
  destruct (settle_all closing (localStreams c)) as [[]|e]; rewrite Hl.
  - destruct (settle_all closing (Object_values (streams c))) as [[]|e];
      cbn; by rewrite <- ?app_assoc, ?app_nil_r.
  - cbn. by rewrite <- ?app_assoc, ?app_nil_r.
Qed.

Lemma locals_close_normally (c : Client) : locals_close closes_normally c = true.
Proof. by apply locals_close_spec. Qed.

Lemma close_eq (c : Client) :
  close c
  = (Ok tt, closed c,
     (StreamClose <$> filter assigned (localStreams c))
     ++ (StreamClose <$> filter assigned (Object_values (streams c)))
     ++ [RemoveAllListeners; DispatchClose]).
Proof.
  unfold close. by rewrite close_with_eq, locals_close_normally.
Qed.




(** ** Connectivity *)

Lemma includes_spec (l : list string) (x : string) :
  includes l x = true ↔ x ∈ l.
Proof.
  unfold includes. rewrite existsb_exists. split.
  - intros (y & Hin & ->%String.eqb_eq). by apply list_elem_of_In.
  - intros Hin. exists x. split; [by apply list_elem_of_In|].
    apply String.eqb_refl.
Qed.

Lemma state_ok_spec (s : Stream) :
  state_ok s = true ↔ connected_state (getIceConnectionState s).
Proof.
  unfold state_ok, connected_state.
  destruct (getIceConnectionState s) as [x|].
  - destruct (truthy (Some x)) eqn:Hx.
    + apply truthy_spec in Hx as (x' & [= <-] & Hne).
      rewrite negb_true_iff, <- not_true_iff_false, includes_spec.
      split.
      * intros Hn. exists x. by repeat split.
      * intros (y & [= <-] & _ & Hn). exact Hn.
    + apply truthy_false_spec in Hx as [Hx|[= ->]]; [done|].
      split; [done|]. by intros (? & [= <-] & Hne & _).
  - split; [done|]. by intros (? & ? & _).
Qed.

Lemma isStreamIceConnected_forallb (c : Client) (local : bool) :
  isStreamIceConnected c local = forallb state_ok (polled c local).
Proof.
  unfold isStreamIceConnected. fold (polled c local).
  assert (∀ l b,
    foldl (λ connected stream,
             match getIceConnectionState stream with
             | Some state =>
                 if truthy (Some state)
                 then connected && negb (includes failedStatuses state)
                 else false
             | None => false
             end) b l
    = b && forallb state_ok l) as Hfold.
  { induction l as [|s l IH]; intros b; cbn [foldl forallb];
      [by rewrite andb_true_r|].
    rewrite IH. unfold state_ok at 2.
    destruct (getIceConnectionState s) as [x|]; [|by destruct b].
    destruct (truthy (Some x)); [|by destruct b].
    by rewrite andb_assoc. }
  by rewrite Hfold.
Qed.

Lemma isStreamIceConnected_spec (c : Client) (local : bool) :
  isStreamIceConnected c local = true
  ↔ ∀ s, s ∈ polled c local → connected_state (getIceConnectionState s).
Proof.
  rewrite isStreamIceConnected_forallb, forallb_forall. split.
  - intros H s Hs. apply state_ok_spec, H. by apply list_elem_of_In.
  - intros H s Hs. apply state_ok_spec, H. by apply list_elem_of_In.
Qed.

(** C7.  [streamsConnected()] is true exactly when every local handle and
    every subscribed handle reports an ICE connection state that is not
    missing and is none of closed, disconnected, failed; it is true when
    there is no handle at all; and [isStreamIceConnected(local)] is false
    as soon as one handle of the polled set reports a missing state or one
    of those three. *)
Theorem streamsConnected_iff (c : Client) :
  (streamsConnected c = true
   ↔ ∀ s, (s ∈ localStreams c ∨ ∃ k, streams c !! k = Some s) →
          ∃ x, getIceConnectionState s = Some x ∧ x ≠ ""
               ∧ x ≠ "closed" ∧ x ≠ "disconnected" ∧ x ≠ "failed")
  ∧ (localStreams c = [] → streams c = ∅ → streamsConnected c = true)
  ∧ (∀ local s,
       s ∈ polled c local →
       (getIceConnectionState s = None ∨ getIceConnectionState s = Some ""
        ∨ getIceConnectionState s = Some "closed"
        ∨ getIceConnectionState s = Some "disconnected"
        ∨ getIceConnectionState s = Some "failed") →
       isStreamIceConnected c local = false).
Proof.
  assert (∀ st, connected_state st ↔
            ∃ x, st = Some x ∧ x ≠ ""
                 ∧ x ≠ "closed" ∧ x ≠ "disconnected" ∧ x ≠ "failed") as Hcs.
  { intros st. unfold connected_state, failedStatuses. split.
    - intros (x & -> & Hne & Hn). exists x.
      rewrite !not_elem_of_cons in Hn. tauto.
    - intros (x & -> & Hne & H1 & H2 & H3). exists x.
      rewrite !not_elem_of_cons. repeat split; try done.
      apply not_elem_of_nil. }
  split; [|split].
  - unfold streamsConnected. rewrite andb_true_iff.
    rewrite !isStreamIceConnected_spec. cbn [polled]. split.
    + intros [Hl Hr] s [Hs|Hs]; apply Hcs; [by apply Hl|].
      by apply Hr, elem_of_Object_values.
    + intros H. split; intros s Hs; apply Hcs, H; [by left|].
      right. by apply elem_of_Object_values.
  - intros Hl Hr. unfold streamsConnected.
    rewrite !isStreamIceConnected_forallb. cbn [polled].
    rewrite Hl, Hr. reflexivity.
  - intros local s Hs Hbad. apply not_true_iff_false.
    rewrite isStreamIceConnected_spec. intros H.
    destruct (proj1 (Hcs _) (H s Hs)) as (x & Hx & Hne & H1 & H2 & H3).
    rewrite Hx in Hbad.
    destruct Hbad as [?|[?|[?|[?|?]]]]; congruence.
Qed.

Lemma streamsConnected_iff_witness :
  streamsConnected client_u1 = true
  ∧ isStreamIceConnected
      (streams_set "m2" remote_failed (set_localStreams [local_3] client_r1))
      false = false.
Proof.
  split.
  - exact (proj1 (proj2 (streamsConnected_iff client_u1)) eq_refl eq_refl).
  - refine (proj2 (proj2 (streamsConnected_iff _)) false remote_failed _ _).
    + apply elem_of_Object_values. exists "m2". reflexivity.
    + right. right. right. right. reflexivity.
Defined.

(** ** [subscribe] *)

Lemma subscribe_begin_no_room (mid : string) (c : Client) :
  truthy (rid c) = false →
  subscribe_begin mid c
  = (Throw (Error "You must join a room before subscribing."), c, []).
Proof.
  unfold subscribe_begin, bind, get. cbn.
  destruct (rid c) as [r|]; [|done]. by intros ->.
Qed.

Lemma subscribe_begin_unknown (mid : string) (c : Client) :
  truthy (rid c) = true → knownStreams c !! mid = None →
  subscribe_begin mid c = (Throw (Error "Subscribe mid is not known."), c, []).
Proof.
  unfold subscribe_begin, bind, get. cbn. intros Hr Hk.
  destruct (rid c) as [r|]; [|done]. by rewrite Hr, Hk.
Qed.

Lemma subscribe_begin_known (mid : string) (c : Client) r tracks :
  rid c = Some r → r ≠ "" → knownStreams c !! mid = Some tracks →
  subscribe_begin mid c
  = (Ok tt, c, [GetRemoteMedia r mid tracks (roomToken c)]).
Proof.
  unfold subscribe_begin, bind, get. cbn. intros Hr Hne Hk.
  by rewrite Hr, (truthy_Some_ne r Hne), Hk.
Qed.

(** The outcome of [subscribe_begin] is one of the three above; the client
    is the same after it, and it ends normally only for a known [mid]. *)
Lemma subscribe_begin_inv (mid : string) (c : Client) res c' t :
  subscribe_begin mid c = (res, c', t) →
  c' = c ∧ (∀ u, res = Ok u → is_Some (knownStreams c !! mid)).
Proof.
  destruct (truthy (rid c)) eqn:Hr.
  - destruct (knownStreams c !! mid) as [tracks|] eqn:Hk.
    + apply truthy_spec in Hr as (r & Hr & Hne).
      rewrite (subscribe_begin_known mid c r tracks Hr Hne Hk).
      intros [= <- <- <-]. eauto.
    + rewrite (subscribe_begin_unknown mid c Hr Hk). by intros [= <- <- <-].
  - rewrite (subscribe_begin_no_room mid c Hr). by intros [= <- <- <-].
Qed.

(** The assignment [this.streams[mid] = stream], case by case. *)
Lemma streams_assign_eq (mid : string) (stream : Stream) (c : Client) :
  streams_assign mid stream c
  = match streams c !! mid with
    | Some _ => (Ok tt, streams_set mid stream c, [])
    | None =>
        if String.eqb mid "__proto__"
        then (Ok tt, set_streams_proto (Some stream) c, [])
        else
          match streams_proto c with
          | None => (Ok tt, streams_set mid stream c, [])
          | Some _ =>
              (Throw (Undetermined "this.streams[mid] = stream"), c, [])
          end
    end.
Proof.
  unfold streams_assign, bind, get, modify, undetermined.
  destruct (streams c !! mid); [done|].
  destruct (String.eqb mid "__proto__"); [done|].
  by destruct (streams_proto c).
Qed.

(** The assignment creates or replaces the own property [mid] when the
    object has it already, or sits on [Object.prototype] and [mid] is not
    ["__proto__"]. *)
Lemma subscribe_resolved_stores (mid : string) (stream : Stream) (c : Client) :
  is_Some (streams c !! mid) ∨ (streams_proto c = None ∧ mid ≠ "__proto__") →
  subscribe_resolved mid stream c = (Ok stream, streams_set mid stream c, []).
Proof.
  unfold subscribe_resolved, bind. rewrite streams_assign_eq.
  intros [[h ->]|[-> Hne]]; [done|].
  destruct (streams c !! mid); [done|].
  by rewrite (proj2 (String.eqb_neq mid "__proto__") Hne).
Qed.

(** The assignment to ["__proto__"] on an object without such a property:
    the delivered handle becomes the prototype of [this.streams], which
    gets no property. *)
Lemma subscribe_resolved_proto (stream : Stream) (c : Client) :
  streams c !! "__proto__" = None →
  subscribe_resolved "__proto__" stream c
  = (Ok stream, set_streams_proto (Some stream) c, []).
Proof.
  intros Hs. unfold subscribe_resolved, bind. rewrite streams_assign_eq.
  by rewrite Hs.
Qed.

(** Whatever the case, [subscribe_resolved] writes the property [mid] or
    leaves the properties of [this.streams] and every other field but the
    prototype as they are. *)
Lemma subscribe_resolved_state (mid : string) (stream : Stream) (c : Client) :
  state_after (subscribe_resolved mid stream) c = streams_set mid stream c
  ∨ ∃ p, state_after (subscribe_resolved mid stream) c = set_streams_proto p c.
Proof.
  unfold state_after, subscribe_resolved, bind. rewrite streams_assign_eq.
  destruct (streams c !! mid); [by left|].
  destruct (String.eqb mid "__proto__"); [right; by eexists|].
  destruct (streams_proto c) as [p|] eqn:Hp; [|by left].
  right. exists (Some p). cbn. rewrite <- Hp. by destruct c.
Qed.

(** ** The subscriptions along a run *)

Lemma registry_grows_refl c : registry_grows c c.
Proof. by split. Qed.

Lemma registry_grows_trans c1 c2 c3 :
  registry_grows c1 c2 → registry_grows c2 c3 → registry_grows c1 c3.
Proof.
  intros [Hs1 Hk1] [Hs2 Hk2]. split; [congruence|]. intros k Hk. auto.
Qed.

Lemma registry_grows_same_maps c c' :
  streams c' = streams c → knownStreams c' = knownStreams c →
  registry_grows c c'.
Proof. intros Hs Hk. split; [done|]. by rewrite Hk. Qed.

Lemma registry_grows_set m t c : registry_grows c (knownStreams_set m t c).
Proof.
  split; [done|]. intros k Hk. simpl.
  destruct (decide (m = k)) as [->|Hne].
  - rewrite lookup_insert_eq. eauto.
  - by rewrite lookup_insert_ne.
Qed.

Lemma join_pub_grows (pub : MediaStreamInfo) (c : Client) :
  registry_grows c (state_after (join_pub pub) c).
Proof.
  unfold state_after. destruct (truthy (msi_mid pub)) eqn:Hm.
  - destruct (truthy_names pub Hm) as (m & Hmid & Hne).
    destruct (msi_tracks pub) as [t|] eqn:Ht.
    + rewrite (join_pub_add pub c m t Hmid Hne Ht). apply registry_grows_set.
    + rewrite (join_pub_fault pub c Hm Ht). apply registry_grows_refl.
  - rewrite (join_pub_skip pub c Hm). apply registry_grows_refl.
Qed.

Lemma forEach_join_pub_grows (ps : list MediaStreamInfo) (c : Client) :
  registry_grows c (state_after (forEach ps join_pub) c).
Proof.
  revert c. induction ps as [|pub ps IH]; intros c.
  - apply registry_grows_refl.
  - pose proof (join_pub_grows pub c) as Hpub. unfold state_after in *.
    cbn [forEach]. unfold bind.
    destruct (join_pub pub c) as [[[[]|e] c1] t1]; [|done].
    specialize (IH c1).
    destruct (forEach ps join_pub c1) as [[r c2] t2].
    by eapply registry_grows_trans.
Qed.

Lemma join_resolved_grows (d : JoinData) (c : Client) :
  registry_grows c (state_after (join_resolved d) c).
Proof.
  unfold state_after, join_resolved. rewrite try_catch_rethrow.
  destruct (pubs d) as [ps|]; [|apply registry_grows_refl].
  apply forEach_join_pub_grows.
Qed.

(** A notification adds to the registry or removes one subscription. *)
Lemma onNotification_maps (n : Notification) (c : Client) :
  registry_grows c (state_after (onNotification n) c)
  ∨ (knownStreams (state_after (onNotification n) c) = knownStreams c
     ∧ ∃ k, streams (state_after (onNotification n) c) = delete k (streams c)).
Proof.
  destruct (decide (method n = "stream-remove")) as [Hrm|Hrm].
  { unfold state_after. rewrite (onNotification_stream_remove n c Hrm).
    destruct (streams_get (prop_key (msi_mid (data n))) c);
      [|left; apply registry_grows_refl..].
    right. split; [done|]. by eexists. }
  left. destruct (decide (method n = "stream-add")) as [Hadd|Hadd].
  { unfold state_after. destruct (truthy (msi_mid (data n))) eqn:Hm.
    - destruct (truthy_names _ Hm) as (m & Hmid & Hne).
      destruct (msi_tracks (data n)) as [t|] eqn:Ht.
      + rewrite (stream_add_registers n c m t Hadd Hmid Hne Ht).
        apply registry_grows_set.
      + rewrite (stream_add_fault n c Hadd Hm Ht). apply registry_grows_refl.
    - rewrite (stream_add_without_mid n c Hadd Hm). apply registry_grows_refl. }
  destruct n as [me [r mid u i tr d]]. cbn [method] in Hrm, Hadd.
  unfold state_after, onNotification.
  destruct (String.eqb_spec me "peer-join"); [apply registry_grows_refl|].
  destruct (String.eqb_spec me "peer-leave"); [apply registry_grows_refl|].
  destruct (String.eqb_spec me "stream-add"); [done|].
  destruct (String.eqb_spec me "stream-remove"); [done|].
  destruct (String.eqb_spec me "broadcast"); apply registry_grows_refl.
Qed.

Lemma publish_maps (stream : Stream) (c : Client) :
  registry_grows c (state_after (publish stream) c).
Proof.
  unfold state_after, publish, bind, get. cbn.
  destruct (rid c) as [r|]; [|apply registry_grows_refl].
  destruct (truthy (Some r)); by apply registry_grows_same_maps.
Qed.

Lemma unpublish_maps (stream : option Stream) (c : Client) :
  registry_grows c (state_after (unpublish stream) c).
Proof. destruct stream; by apply registry_grows_same_maps. Qed.

Lemma elem_of_remove_first (x y : string) (l : list string) :
  y ∈ remove_first x l → y ∈ l.
Proof.
  induction l as [|z l IH]; [done|]. cbn [remove_first].
  destruct (decide (x = z)); rewrite !elem_of_cons; tauto.
Qed.

Lemma subscriptions_known_grows (s : Session) (c' : Client) :
  registry_grows (client s) c' →
  subscriptions_known s → subscriptions_known (mkSession c' (awaiting s)).
Proof.
  intros [Hs Hk] [Hsub Hawait]. split; cbn [client awaiting].
  - intros k Hin. rewrite Hs in Hin. auto.
  - intros k Hin. auto.
Qed.

(** The invariant is kept by every step of a run in which the teardown
    does not overlap a pending [subscribe]. *)
Lemma subscriptions_known_run (a : Action) (s : Session) :
  enabled false a s → subscriptions_known s → subscriptions_known (run a s).
Proof.
  intros Hen Hinv. destruct a; cbn [run enabled] in *.
  - apply subscriptions_known_grows; [|done].
    destruct e; apply registry_grows_refl.
  - apply subscriptions_known_grows; [|done]. unfold state_after.
    rewrite join_begin_eq.
    apply registry_grows_same_maps;
      [apply joining_streams | apply joining_knownStreams].
  - apply subscriptions_known_grows; [apply join_resolved_grows|done].
  - apply subscriptions_known_grows; [apply registry_grows_refl|done].
  - destruct (onNotification_maps n (client s)) as [Hg|(Hk & k & Hs)].
    + by apply subscriptions_known_grows.
    + destruct Hinv as [Hsub Hawait]. split; cbn [client awaiting].
      * intros k' [h Hh]. rewrite Hs in Hh. rewrite Hk.
        apply lookup_delete_Some in Hh as [_ Hh]. eauto.
      * intros k' Hin. rewrite Hk. auto.
  - apply subscriptions_known_grows; [apply registry_grows_refl|done].
  - apply subscriptions_known_grows; [apply publish_maps|done].
  - apply subscriptions_known_grows; [apply unpublish_maps|done].
  - destruct (subscribe_begin mid (client s)) as [[res c'] t] eqn:Hrun.
    apply subscribe_begin_inv in Hrun as [-> Hok].
    destruct Hinv as [Hsub Hawait].
    destruct res as [u|e]; split; cbn [client awaiting]; try done.
    intros k [->|Hin]%elem_of_cons; [by eapply Hok|auto].
  - destruct Hinv as [Hsub Hawait].
    destruct (subscribe_resolved_state mid stream (client s)) as [->|[p ->]];
      split; cbn [client awaiting].
    + intros k. cbn. destruct (decide (mid = k)) as [<-|Hne].
      * intros _. auto.
      * rewrite lookup_insert_ne by done. auto.
    + intros k Hin%elem_of_remove_first. cbn. auto.
    + intros k. cbn. auto.
    + intros k Hin%elem_of_remove_first. cbn. auto.
  - destruct Hinv as [Hsub Hawait]. split; cbn [client awaiting]; [done|].
    intros k Hin%elem_of_remove_first. auto.
  - apply subscriptions_known_grows; [apply registry_grows_refl|done].
  - destruct Hen as [?|Hnone]; [done|]. rewrite Hnone.
    unfold state_after, leave_settled, bind, try_catch, lift.
    destruct response as [[]|e]; cbn; rewrite close_eq; cbn;
      (split; cbn; [intros k [h Hh]; by rewrite lookup_empty in Hh|]);
      intros k Hin; by apply elem_of_nil in Hin.
  - destruct Hen as [?|Hnone]; [done|]. rewrite Hnone.
    unfold state_after. rewrite close_eq. cbn.
    split; cbn; [intros k [h Hh]; by rewrite lookup_empty in Hh|].
    intros k Hin. by apply elem_of_nil in Hin.
Qed.

Lemma reachable_subscriptions_known (s : Session) :
  reachable false s → subscriptions_known s.
Proof.
  induction 1 as [u|s a Hs IH Hen].
  - split; cbn.
    + intros k [h Hh]. by rewrite lookup_empty in Hh.
    + intros k Hin. by apply elem_of_nil in Hin.
  - by apply subscriptions_known_run.
Qed.

(** C2 (amended).  For every [mid], [subscribe(mid)] throws the error
    "You must join a room before subscribing." when no room is joined
    ([rid] undefined or empty); with a room joined it throws "Subscribe
    mid is not known." when the registry has no entry for [mid];
    otherwise it asks for the remote stream of the registered track
    mapping and, when that stream is delivered, stores it in the
    subscribed-stream map under [mid] and returns it, replacing a handle
    already stored there without closing it: this for a [mid] other than
    ["__proto__"], on a map that has the prototype of a plain object.  In
    every state reached by a run in which [close] (or the teardown of
    [leave]) does not run while a [subscribe] awaits its stream, every key
    of the subscribed-stream map is a key of the registry. *)
Theorem subscribe_outcomes (c : Client) (mid : string) :
  (truthy (rid c) = false →
   subscribe_begin mid c
   = (Throw (Error "You must join a room before subscribing."), c, []))
  ∧ (truthy (rid c) = true → knownStreams c !! mid = None →
     subscribe_begin mid c
     = (Throw (Error "Subscribe mid is not known."), c, []))
  ∧ (∀ r tracks,
       rid c = Some r → r ≠ "" → knownStreams c !! mid = Some tracks →
       subscribe_begin mid c
       = (Ok tt, c, [GetRemoteMedia r mid tracks (roomToken c)])
       ∧ ∀ stream,
           mid ≠ "__proto__" → streams_proto c = None →
           subscribe mid (Ok stream) c
           = (Ok stream, streams_set mid stream c,
              [GetRemoteMedia r mid tracks (roomToken c)]))
  ∧ (∀ stream c1,
       mid ≠ "__proto__" → streams_proto c1 = None →
       subscribe_resolved mid stream c1
       = (Ok stream, streams_set mid stream c1, [])
       ∧ streams (streams_set mid stream c1) !! mid = Some stream
       ∧ (∀ k, k ≠ mid →
            streams (streams_set mid stream c1) !! k = streams c1 !! k)
       ∧ knownStreams (streams_set mid stream c1) = knownStreams c1)
  ∧ (∀ s, reachable false s →
          ∀ k, is_Some (streams (client s) !! k) →
               is_Some (knownStreams (client s) !! k)).
Proof.
  split; [apply subscribe_begin_no_room|].
  split; [apply subscribe_begin_unknown|].
  split; [|split].
  - intros r tracks Hr Hne Hk.
    pose proof (subscribe_begin_known mid c r tracks Hr Hne Hk) as Hrun.
    split; [done|]. intros stream Hmid Hp. unfold subscribe, bind.
    rewrite Hrun.
    by rewrite (subscribe_resolved_stores mid stream c (or_intror (conj Hp Hmid))).
  - intros stream c1 Hmid Hp. repeat split; cbn.
    + by rewrite (subscribe_resolved_stores mid stream c1
                    (or_intror (conj Hp Hmid))).
    + by rewrite lookup_insert_eq.
    + intros k Hk. by rewrite lookup_insert_ne.
  - intros s Hs. by destruct (reachable_subscriptions_known s Hs).
Qed.

Lemma subscribe_outcomes_witness :
  subscribe_begin "m1" client_u1
  = (Throw (Error "You must join a room before subscribing."), client_u1, [])
  ∧ subscribe_begin "m2" client_subscribed
    = (Throw (Error "Subscribe mid is not known."), client_subscribed, [])
  ∧ subscribe "m1" (Ok remote_9) client_subscribed
    = (Ok remote_9, streams_set "m1" remote_9 client_subscribed,
       [GetRemoteMedia "r1" "m1" {[ "audio" := OneTrack track_t1 ]} None]).
Proof.
  split; [|split].
  - exact (proj1 (subscribe_outcomes client_u1 "m1") eq_refl).
  - exact (proj1 (proj2 (subscribe_outcomes client_subscribed "m2"))
             eq_refl eq_refl).
  - destruct (subscribe_outcomes client_subscribed "m1")
      as (_ & _ & H & _).
    destruct (H "r1" {[ "audio" := OneTrack track_t1 ]} eq_refl
                ltac:(discriminate) eq_refl) as [_ Hsub].
    exact (Hsub remote_9 ltac:(discriminate) eq_refl).
Defined.

(** C2 as stated fails twice.  The state after that run is reachable,
    ["m1"] is a key of the subscribed-stream map and the registry is
    empty.  And [subscribe("__proto__")], served for a registered [mid]
    ["__proto__"], returns the stream and stores it under no key: the
    stream has become the prototype of the map. *)
Lemma subscribe_invariant_counterexample :
  reachable true after_overlapping_run
  ∧ streams (client after_overlapping_run) !! "m1" = Some remote_7
  ∧ knownStreams (client after_overlapping_run) !! "m1" = None
  ∧ knownStreams (client after_overlapping_run) = ∅
  ∧ subscribe "__proto__" (Ok remote_7) client_knows_proto
    = (Ok remote_7, set_streams_proto (Some remote_7) client_knows_proto,
       [GetRemoteMedia "r1" "__proto__" {[ "audio" := OneTrack track_t1 ]}
                       None])
  ∧ streams (set_streams_proto (Some remote_7) client_knows_proto)
    !! "__proto__" = None.
Proof.
  split; [|by vm_compute].
  unfold after_overlapping_run, overlapping_run. cbn [foldl].
  repeat (apply reachable_run; [|cbn [enabled]; auto]).
  - apply reachable_new.
  - vm_compute. by left.
Qed.

(** ** The scenarios of the specification, run on the model *)

(** Joining ["r1"] as ["u1"] with no [pubs], then the notification
    [stream-add] for ["m1"]: the registry holds the entry, the event is
    emitted, [subscribe("m1")] is served and [subscribe("m2")] is not. *)
Example scenario_join_stream_add_subscribe :
  let c1 := state_after (join "r1" None None (Ok (mkJoinData None))) client_u1 in
  let c2 := state_after (onNotification stream_add_m1) c1 in
  rid c1 = Some "r1"
  ∧ knownStreams c1 = ∅
  ∧ knownStreams c2 = {[ "m1" := {[ "audio" := OneTrack track_t1 ]} ]}
  ∧ (onNotification stream_add_m1 c1).2
    = [Emit (StreamAdd (Some "m1") "u2" None None)]
  ∧ (subscribe "m1" (Ok remote_7) c2).1.1 = Ok remote_7
  ∧ (subscribe "m2" (Ok remote_7) c2).1.1
    = Throw (Error "Subscribe mid is not known.").
Proof. by vm_compute. Qed.

(** [stream-remove] for ["m1"] after subscribing to it: the handle is
    closed and leaves the subscribed-stream map, the registry keeps the
    entry. *)
Example scenario_stream_remove :
  let out := onNotification stream_remove_m1 client_subscribed in
  out.2 = [Emit (StreamRemove (Some remote_7) "u2"); StreamClose remote_7]
  ∧ streams out.1.2 = ∅
  ∧ knownStreams out.1.2 = {[ "m1" := {[ "audio" := OneTrack track_t1 ]} ]}.
Proof. by vm_compute. Qed.

(** [leave()] whose request is rejected still tears the session down. *)
Example scenario_leave_rejected :
  let out := leave (Throw (RequestError "timeout")) client_subscribed in
  out.1.1 = Ok tt
  ∧ localStreams out.1.2 = []
  ∧ streams out.1.2 = ∅
  ∧ knownStreams out.1.2 = ∅
  ∧ out.2 = [ Request "leave" {| p_rid := Some "r1"; p_uid := "u1";
                                 p_info := None; p_token := None |};
              StreamClose remote_7; RemoveAllListeners; DispatchClose ].
Proof. by vm_compute. Qed.

(** * Further properties of the client *)

(** ** [objToStrMap] *)

(** X1.  [objToStrMap] returns a map with exactly the entries of the object it
    is given: the same keys, under each key the same value, the same
    number of entries; and it throws exactly when the object is
    undefined. *)
Theorem objToStrMap_copies {V} (obj : option (gmap string V)) :
  (∀ o, obj = Some o →
        ∃ strMap, objToStrMap obj = Ok strMap
                  ∧ (∀ k, strMap !! k = o !! k)
                  ∧ dom strMap = dom o
                  ∧ size strMap = size o)
  ∧ (obj = None ↔ ∃ e, objToStrMap obj = Throw e).
Proof.
  split.
  - intros o ->. exists o. by rewrite objToStrMap_Some.
  - split.
    + intros ->. by eexists.
    + intros [e He]. destruct obj as [o|]; [|done].
      by rewrite objToStrMap_Some in He.
Qed.

(** ** [onNotification]: the other methods and the frame *)

Lemma onNotification_other (n : Notification) (c : Client) :
  method n ≠ "stream-add" → method n ≠ "stream-remove" →
  onNotification n c
  = (Ok tt, c,
     if String.eqb (method n) "peer-join"
     then [Emit (PeerJoin (msi_uid (data n)) (msi_info (data n)))]
     else if String.eqb (method n) "peer-leave"
     then [Emit (PeerLeave (msi_uid (data n)))]
     else if String.eqb (method n) "broadcast"
     then [Emit (Broadcast (msi_uid (data n)) (msi_info (data n)))]
     else []).
Proof.
  destruct n as [me [r mid u i tr d]]. cbn [method data msi_uid msi_info].
  intros Hadd Hrm. unfold onNotification.
  destruct (String.eqb_spec me "peer-join"); [done|].
  destruct (String.eqb_spec me "peer-leave"); [done|].
  destruct (String.eqb_spec me "stream-add"); [done|].
  destruct (String.eqb_spec me "stream-remove"); [done|].
  by destruct (String.eqb_spec me "broadcast").
Qed.

(** X2.  A [peer-join], [peer-leave] or [broadcast] notification ends normally,
    leaves the client as it was and emits one event with the fields of its
    data; a notification whose method is none of the five the handler
    knows is ignored: nothing is emitted and nothing thrown. *)
Theorem notification_passthrough (n : Notification) (c : Client) :
  method n ≠ "stream-add" → method n ≠ "stream-remove" →
  ∃ t,
    onNotification n c = (Ok tt, c, t)
    ∧ (method n = "peer-join" →
       t = [Emit (PeerJoin (msi_uid (data n)) (msi_info (data n)))])
    ∧ (method n = "peer-leave" → t = [Emit (PeerLeave (msi_uid (data n)))])
    ∧ (method n = "broadcast" →
       t = [Emit (Broadcast (msi_uid (data n)) (msi_info (data n)))])
    ∧ (method n ≠ "peer-join" → method n ≠ "peer-leave" →
       method n ≠ "broadcast" → t = []).
Proof.
  intros Hadd Hrm. eexists. split; [by apply onNotification_other|].
  repeat split.
  - by intros ->.
  - by intros ->.
  - by intros ->.
  - intros H1 H2 H3.
    destruct (String.eqb_spec (method n) "peer-join"); [done|].
    destruct (String.eqb_spec (method n) "peer-leave"); [done|].
    by destruct (String.eqb_spec (method n) "broadcast").
Qed.

Lemma notification_passthrough_witness :
  onNotification
    {| method := "peer-join";
       data := {| msi_rid := "r1"; msi_mid := None; msi_uid := "u2";
                  msi_info := Some "hello"; msi_tracks := None;
                  msi_description := None |} |} client_r1
  = (Ok tt, client_r1, [Emit (PeerJoin "u2" (Some "hello"))]).
Proof.
  destruct (notification_passthrough
              {| method := "peer-join";
                 data := {| msi_rid := "r1"; msi_mid := None; msi_uid := "u2";
                            msi_info := Some "hello"; msi_tracks := None;
                            msi_description := None |} |} client_r1
              ltac:(discriminate) ltac:(discriminate))
    as (t & Hrun & Hjoin & _).
  rewrite Hrun. by rewrite (Hjoin eq_refl).
Defined.

(** The shapes the outcome of the handler can take. *)
Lemma onNotification_cases (n : Notification) (c : Client) :
  (∃ r t, onNotification n c = (r, c, t)
          ∧ ∀ x, x ∈ t → ∃ ev, x = Emit ev)
  ∨ (∃ m tracks ev,
       onNotification n c = (Ok tt, knownStreams_set m tracks c, [Emit ev]))
  ∨ (∃ k h ev,
       (streams c !! k = Some h
        ∨ (msi_mid (data n) = Some "__proto__"
           ∧ streams c !! "__proto__" = None ∧ streams_proto c = Some h))
       ∧ onNotification n c
         = (Ok tt, streams_delete k c, [Emit ev; StreamClose h])).
Proof.
  destruct (decide (method n = "stream-remove")) as [Hrm|Hrm].
  { rewrite (onNotification_stream_remove n c Hrm).
    destruct (streams_get (prop_key (msi_mid (data n))) c) as [h|m| |] eqn:Hh.
    - right. right. apply streams_get_Handle in Hh.
      exists (prop_key (msi_mid (data n))), h. eexists. split; [|done].
      destruct Hh as [Hh|(Hkey & Hown & Hp)]; [by left|right].
      split; [|done]. destruct (msi_mid (data n)) as [m|]; [|done].
      cbn in Hkey. by subst m.
    - left. do 2 eexists. split; [done|].
      intros x ->%list_elem_of_singleton. by eexists.
    - left. do 2 eexists. split; [done|].
      intros x ->%list_elem_of_singleton. by eexists.
    - left. do 2 eexists. split; [done|]. by intros x ?%elem_of_nil. }
  destruct (decide (method n = "stream-add")) as [Hadd|Hadd].
  { destruct (truthy (msi_mid (data n))) eqn:Hm.
    - destruct (truthy_names _ Hm) as (m & Hmid & Hne).
      destruct (msi_tracks (data n)) as [t|] eqn:Ht.
      + right. left.
        rewrite (stream_add_registers n c m t Hadd Hmid Hne Ht).
        by repeat eexists.
      + left. rewrite (stream_add_fault n c Hadd Hm Ht).
        do 2 eexists. split; [done|]. by intros x ?%elem_of_nil.
    - left. rewrite (stream_add_without_mid n c Hadd Hm).
      do 2 eexists. split; [done|].
      intros x ->%list_elem_of_singleton. by eexists. }
  left. rewrite (onNotification_other n c Hadd Hrm).
  do 2 eexists. split; [done|]. intros x Hx.
  destruct (String.eqb (method n) "peer-join");
    [apply list_elem_of_singleton in Hx as ->; by eexists|].
  destruct (String.eqb (method n) "peer-leave");
    [apply list_elem_of_singleton in Hx as ->; by eexists|].
  destruct (String.eqb (method n) "broadcast");
    [apply list_elem_of_singleton in Hx as ->; by eexists|].
  by apply elem_of_nil in Hx.
Qed.

(** X3.  Whatever the notification, and whether the handler ends normally or
    throws: [uid], [rid], the token and the local-stream list are
    unchanged; no registry key is removed; no subscription is added or
    replaced, and the prototype of the subscribed-stream map stays what it
    is; the handler sends no request, and the only handle it may close is
    one a [subscribe] had stored: one that was subscribed, or the one that
    is the prototype of the map, which only [stream-remove] with the
    [mid] ["__proto__"] closes. *)
Theorem notification_frame (n : Notification) (c : Client) :
  let c' := (onNotification n c).1.2 in
  keeps_room c c'
  ∧ localStreams c' = localStreams c
  ∧ (∀ k, is_Some (knownStreams c !! k) → is_Some (knownStreams c' !! k))
  ∧ (∀ k h, streams c' !! k = Some h → streams c !! k = Some h)
  ∧ streams_proto c' = streams_proto c
  ∧ (∀ x, x ∈ (onNotification n c).2 →
          (∃ ev, x = Emit ev)
          ∨ (∃ k h, x = StreamClose h ∧ streams c !! k = Some h)
          ∨ (∃ h, x = StreamClose h ∧ streams_proto c = Some h
                  ∧ msi_mid (data n) = Some "__proto__"
                  ∧ streams c !! "__proto__" = None)).
Proof.
  cbv zeta.
  destruct (onNotification_cases n c)
    as [(r & t & Hrun & Ht)|[(m & tr & ev & Hrun)|(k & h & ev & Hh & Hrun)]];
    rewrite Hrun; cbn [fst snd].
  - repeat split; try done. intros x Hx. left. by apply Ht.
  - repeat split; try done.
    + intros k Hk. by apply (registry_grows_set m tr c).
    + intros x ->%list_elem_of_singleton. left. by eexists.
  - repeat split; try done.
    + intros k' h'. cbn. by intros [_ ?]%lookup_delete_Some.
    + intros x [->|Hx]%elem_of_cons; [left; by eexists|].
      apply list_elem_of_singleton in Hx as ->. right.
      destruct Hh as [Hh|(Hmid & Hown & Hp)]; [left; by exists k, h|].
      right. by exists h.
Qed.

(** [stream-remove] for ["__proto__"] once [subscribe("__proto__")] has
    made [remote_7] the prototype of the map: the handle is closed, and it
    stays the prototype. *)
Example scenario_stream_remove_prototype :
  let c := set_streams_proto (Some remote_7) client_r1 in
  onNotification stream_remove_proto c
  = (Ok tt, c, [Emit (StreamRemove (Some remote_7) "u2"); StreamClose remote_7])
  ∧ streams c = ∅.
Proof. by vm_compute. Qed.

(** ** [publish], [unpublish] *)

Lemma Client_eta (c : Client) :
  {| uid := uid c; rid := rid c; localStreams := localStreams c;
     streams := streams c; knownStreams := knownStreams c;
     roomToken := roomToken c; streams_proto := streams_proto c |} = c.
Proof. by destruct c. Qed.

Lemma Client_eq (c c' : Client) :
  same_session c c' → knownStreams c' = knownStreams c → c' = c.
Proof.
  destruct c, c'. unfold same_session. cbn.
  intros (-> & -> & -> & -> & -> & ->) ->. done.
Qed.

Lemma filter_all {A} (P : A → Prop) `{∀ x, Decision (P x)} (l : list A) :
  Forall P l → filter P l = l.
Proof.
  induction 1 as [|x l Hx Hl IH]; [done|].
  rewrite filter_cons_True by done. by rewrite IH.
Qed.

Lemma publish_no_room (stream : Stream) (c : Client) :
  truthy (rid c) = false →
  publish stream c
  = (Throw (Error "You must join a room before publishing."), c, []).
Proof.
  unfold publish, bind, get. cbn.
  destruct (rid c) as [r|]; [|done]. by intros ->.
Qed.

Lemma publish_joined (stream : Stream) (c : Client) (r : string) :
  rid c = Some r → r ≠ "" →
  publish stream c
  = (Ok tt, set_localStreams (localStreams c ++ [stream]) c,
     [StreamPublish stream r (roomToken c)]).
Proof.
  unfold publish, bind, get. cbn. intros Hr Hne.
  by rewrite Hr, (truthy_Some_ne r Hne).
Qed.

(** X4.  [publish] followed by [close], as when the session is torn down while
    the handle's own [publish] is still in flight, whatever the [close] of
    a handle does.  Without a room the handle is refused and not kept.
    With a room the handle is kept at the end of the local-stream list and
    its [publish] is called with the room and the token; [close] then
    calls [close] on the local handles, on this one last and only if its
    [mid] is assigned, drops it from the list in either case, and goes on
    to the subscribed handles only if none of those calls has thrown. *)
Theorem publish_then_close (closing : Stream → Result unit) (stream : Stream)
    (c : Client) :
  (truthy (rid c) = false →
   publish stream c
   = (Throw (Error "You must join a room before publishing."), c, [])
   ∧ (publish stream ;; close_with closing) c
     = (Throw (Error "You must join a room before publishing."), c, []))
  ∧ (∀ r, rid c = Some r → r ≠ "" →
       localStreams (publish stream c).1.2 = localStreams c ++ [stream]
       ∧ (publish stream ;; close_with closing) c
         = (Ok tt, closed c,
            StreamPublish stream r (roomToken c)
            :: closes (localStreams c)
            ++ (if decide (assigned stream) then [StreamClose stream] else [])
            ++ (if locals_close closing c
                   && (if decide (assigned stream)
                       then close_returns closing stream else true)
                then closes (Object_values (streams c)) else [])
            ++ [RemoveAllListeners; DispatchClose])).
Proof.
  split.
  - intros Hr. unfold bind. by rewrite (publish_no_room stream c Hr).
  - intros r Hr Hne. unfold bind.
    rewrite (publish_joined stream c r Hr Hne). split; [done|].
    rewrite close_with_eq. unfold locals_close.
    cbn [localStreams streams set_localStreams].
    unfold closes. rewrite filter_app, fmap_app, forallb_app, <- !app_assoc.
    replace (closed (set_localStreams (localStreams c ++ [stream]) c))
      with (closed c) by done.
    do 3 f_equal.
    destruct (decide (assigned stream)) as [Ha|Ha].
    + rewrite filter_cons_True by done. cbn [filter forallb fmap list_fmap app].
      by rewrite filter_nil, andb_true_r.
    + rewrite filter_cons_False by done. by rewrite filter_nil.
Qed.

Lemma publish_then_close_witness :
  (publish local_unassigned ;; close_with closes_normally) client_subscribed
  = (Ok tt, closed client_subscribed,
     [StreamPublish local_unassigned "r1" None; StreamClose remote_7;
      RemoveAllListeners; DispatchClose])
  ∧ (publish local_3 ;; close_with local_3_fails) client_subscribed
    = (Ok tt, closed client_subscribed,
       [StreamPublish local_3 "r1" None; StreamClose local_3;
        RemoveAllListeners; DispatchClose])
  ∧ publish local_3 client_u1
    = (Throw (Error "You must join a room before publishing."), client_u1, []).
Proof.
  split; [|split].
  - destruct (publish_then_close closes_normally local_unassigned
                client_subscribed) as [_ H].
    destruct (H "r1" eq_refl ltac:(discriminate)) as [_ Hrun].
    rewrite Hrun. by vm_compute.
  - destruct (publish_then_close local_3_fails local_3 client_subscribed)
      as [_ H].
    destruct (H "r1" eq_refl ltac:(discriminate)) as [_ Hrun].
    rewrite Hrun. by vm_compute.
  - destruct (publish_then_close closes_normally local_3 client_u1) as [H _].
    exact (proj1 (H eq_refl)).
Defined.

(** X5.  [unpublish(undefined)] throws and changes nothing.  [unpublish] of a
    handle removes every occurrence of that handle (by identity) from the
    local-stream list, keeps the other handles in their order, touches no
    other field, and calls the handle's [unpublish] whether or not the
    handle was in the list. *)
Theorem unpublish_outcome (c : Client) :
  unpublish None c
  = (Throw (Error "Undefined LocalStream in unpublish."), c, [])
  ∧ ∀ stream,
      ∃ c',
        unpublish (Some stream) c = (Ok tt, c', [StreamUnpublish stream])
        ∧ (∀ l, l ∈ localStreams c' ↔
                l ∈ localStreams c ∧ stream_ref l ≠ stream_ref stream)
        ∧ localStreams c' `sublist_of` localStreams c
        ∧ (Forall (λ l, stream_ref l ≠ stream_ref stream) (localStreams c) →
           c' = c)
        ∧ uid c' = uid c ∧ rid c' = rid c ∧ roomToken c' = roomToken c
        ∧ streams c' = streams c ∧ knownStreams c' = knownStreams c.
Proof.
  split; [done|]. intros stream. eexists. split; [reflexivity|].
  cbn. split; [|split; [|split; [|done]]].
  - intros l. rewrite list_elem_of_filter. tauto.
  - apply sublist_filter.
  - intros Hall. rewrite (filter_all _ _ Hall). apply Client_eta.
Qed.

(** X6.  A handle that is not yet in the local-stream list, published (once or
    twice) in a joined room and then unpublished, leaves the client exactly
    as it was: one [unpublish] removes every copy of the handle. *)
Theorem publish_unpublish_round_trip (stream : Stream) (c : Client) (r : string) :
  rid c = Some r → r ≠ "" →
  Forall (λ l, stream_ref l ≠ stream_ref stream) (localStreams c) →
  (publish stream ;; unpublish (Some stream)) c
  = (Ok tt, c,
     [StreamPublish stream r (roomToken c); StreamUnpublish stream])
  ∧ (publish stream ;; publish stream ;; unpublish (Some stream)) c
    = (Ok tt, c,
       [StreamPublish stream r (roomToken c);
        StreamPublish stream r (roomToken c); StreamUnpublish stream]).
Proof.
  intros Hr Hne Hall.
  assert (∀ k, filter (λ l, stream_ref l ≠ stream_ref stream)
                 (localStreams c ++ k)
               = localStreams c
                 ++ filter (λ l, stream_ref l ≠ stream_ref stream) k) as Hf.
  { intros k. by rewrite filter_app, (filter_all _ _ Hall). }
  split.
  - unfold bind. rewrite (publish_joined stream c r Hr Hne).
    cbn. rewrite Hf. rewrite filter_cons_False by (intros H; by apply H).
    rewrite filter_nil, app_nil_r. unfold set_localStreams. cbn.
    by rewrite Client_eta.
  - unfold bind. rewrite (publish_joined stream c r Hr Hne).
    rewrite (publish_joined stream
               (set_localStreams (localStreams c ++ [stream]) c) r Hr Hne).
    cbn. rewrite <- app_assoc, Hf. cbn [app].
    rewrite !filter_cons_False by (intros H; by apply H).
    rewrite filter_nil, app_nil_r. unfold set_localStreams. cbn.
    by rewrite Client_eta.
Qed.

Lemma publish_unpublish_round_trip_witness :
  (publish local_3 ;; unpublish (Some local_3)) client_subscribed
  = (Ok tt, client_subscribed,
     [StreamPublish local_3 "r1" None; StreamUnpublish local_3]).
Proof.
  exact (proj1 (publish_unpublish_round_trip local_3 client_subscribed "r1"
                  eq_refl ltac:(discriminate) ltac:(constructor))).
Defined.

(** ** [leave], [close] *)

(** [leave()], whatever its request and the closes of the handles do. *)
Lemma leave_with_eq (closing : Stream → Result unit) (response : Result unit)
    (c : Client) :
  leave_with closing response c
  = (Ok tt, closed c,
     Request "leave" {| p_rid := rid c; p_uid := uid c; p_info := None;
                        p_token := spread_token (roomToken c) |}
     :: (close_with closing c).2).
Proof.
  pose proof (close_with_eq closing c) as Hc.
  unfold leave_with, leave_begin, leave_settled_with.
  unfold bind, get, perform, try_catch, lift, ret.
  destruct response as [[]|e]; cbn;
    destruct (close_with closing c) as [[r c2] t2]; by injection Hc as -> -> ->.
Qed.

(** X7.  [leave()] never throws and does not look at the outcome of its
    request: whether the request resolves or is rejected, it has sent one
    [leave] request with the current [rid] (also when no room was joined),
    [uid] and token, and then does all that [close()] does. *)
Theorem leave_always_closes (c : Client) (response : Result unit) :
  leave response c
  = (Ok tt, closed c,
     Request "leave" {| p_rid := rid c; p_uid := uid c; p_info := None;
                        p_token := spread_token (roomToken c) |}
     :: (close c).2)
  ∧ (close c).1 = (Ok tt, closed c)
  ∧ leave response c = leave (Ok tt) c.
Proof.
  assert (∀ resp, leave resp c
          = (Ok tt, closed c,
             Request "leave" {| p_rid := rid c; p_uid := uid c;
                                p_info := None;
                                p_token := spread_token (roomToken c) |}
             :: (close c).2)) as Hleave.
  { intros resp. unfold leave, close. apply leave_with_eq. }
  split; [apply Hleave|]. split; [by rewrite close_eq|].
  by rewrite !Hleave.
Qed.

(** X8.  [close()] run a second time finds nothing to close: it only removes
    the listeners and closes the peer again, and the state stays the one
    the first [close()] left.  [close()] keeps [uid], [rid] and the token,
    and a closed client reports its streams as connected. *)
Theorem close_idempotent (c : Client) :
  (close ;; close) c
  = (Ok tt, closed c, (close c).2 ++ [RemoveAllListeners; DispatchClose])
  ∧ close (closed c) = (Ok tt, closed c, [RemoveAllListeners; DispatchClose])
  ∧ keeps_room c (closed c)
  ∧ streamsConnected (closed c) = true.
Proof.
  assert (close (closed c)
          = (Ok tt, closed c, [RemoveAllListeners; DispatchClose])) as H2.
  { rewrite close_eq. cbn [closed localStreams streams set_knownStreams
                           set_streams_proto set_streams set_localStreams].
    unfold Object_values. by rewrite map_to_list_empty. }
  split; [|split; [done|split; [done|]]].
  - unfold bind. pose proof (close_eq c) as Hc.
    destruct (close c) as [[r c1] t1]. injection Hc as -> -> ->.
    cbv beta iota zeta. by rewrite H2.
  - unfold streamsConnected. rewrite !isStreamIceConnected_forallb.
    cbn [polled closed localStreams streams set_knownStreams
         set_streams_proto set_streams set_localStreams].
    unfold Object_values. by rewrite map_to_list_empty.
Qed.

(** X9.  [close()] does not leave the room.  On a closed client [subscribe] is
    refused for every [mid]: as unknown when a room had been joined, for
    want of a room otherwise; [publish] is still accepted when a room had
    been joined, with the room and the token of before. *)
Theorem closed_client_behaviour (c : Client) :
  (∀ mid, truthy (rid c) = true →
     subscribe_begin mid (closed c)
     = (Throw (Error "Subscribe mid is not known."), closed c, []))
  ∧ (∀ mid, truthy (rid c) = false →
       subscribe_begin mid (closed c)
       = (Throw (Error "You must join a room before subscribing."),
          closed c, []))
  ∧ (∀ stream r, rid c = Some r → r ≠ "" →
       publish stream (closed c)
       = (Ok tt, set_localStreams [stream] (closed c),
          [StreamPublish stream r (roomToken c)])).
Proof.
  split; [|split].
  - intros mid Hr. by apply subscribe_begin_unknown.
  - intros mid Hr. by apply subscribe_begin_no_room.
  - intros stream r Hr Hne.
    by rewrite (publish_joined stream (closed c) r Hr Hne).
Qed.

Lemma closed_client_behaviour_witness :
  subscribe_begin "m1" (closed client_subscribed)
  = (Throw (Error "Subscribe mid is not known."), closed client_subscribed, [])
  ∧ (publish local_3 (closed client_subscribed)).1.1 = Ok tt.
Proof.
  destruct (closed_client_behaviour client_subscribed) as (H1 & _ & H3).
  split; [exact (H1 "m1" eq_refl)|].
  by rewrite (H3 local_3 "r1" eq_refl ltac:(discriminate)).
Defined.

(** ** [subscribe] and [stream-remove] *)

(** X10.  Subscribing to a [mid] that was not subscribed and then processing the
    [stream-remove] notification of that [mid] gives back the client as it
    was; the delivered handle is closed once.  This for a [mid] other than
    ["__proto__"] (the assignment of which stores no property), on a map
    with the prototype of a plain object; the names that map inherits,
    such as ["toString"], are stored and removed like any other. *)
Theorem subscribe_remove_round_trip (c : Client) (mid : string) (s : Stream)
    (n : Notification) :
  method n = "stream-remove" → msi_mid (data n) = Some mid →
  streams c !! mid = None →
  mid ≠ "__proto__" → streams_proto c = None →
  (subscribe_resolved mid s ;; onNotification n) c
  = (Ok tt, c, [Emit (StreamRemove (Some s) (msi_uid (data n))); StreamClose s]).
Proof.
  intros Hme Hmid Hnone Hne Hp. unfold bind.
  rewrite (subscribe_resolved_stores mid s c (or_intror (conj Hp Hne))).
  rewrite (onNotification_stream_remove n _ Hme), Hmid.
  change (prop_key (Some mid)) with mid.
  rewrite (streams_get_own mid (streams_set mid s c) s)
    by (cbn; by rewrite lookup_insert_eq).
  unfold streams_delete, streams_set, set_streams. cbn.
  rewrite delete_insert_eq, delete_id by done.
  by rewrite Client_eta.
Qed.

Lemma subscribe_remove_round_trip_witness :
  (subscribe_resolved "m1" remote_9 ;; onNotification stream_remove_m1)
    client_r1
  = (Ok tt, client_r1,
     [Emit (StreamRemove (Some remote_9) "u2"); StreamClose remote_9])
  ∧ (subscribe_resolved "toString" remote_9 ;;
     onNotification stream_remove_toString) client_r1
    = (Ok tt, client_r1,
       [Emit (StreamRemove (Some remote_9) "u2"); StreamClose remote_9]).
Proof.
  split.
  - exact (subscribe_remove_round_trip client_r1 "m1" remote_9
             stream_remove_m1 eq_refl eq_refl eq_refl
             ltac:(discriminate) eq_refl).
  - exact (subscribe_remove_round_trip client_r1 "toString" remote_9
             stream_remove_toString eq_refl eq_refl eq_refl
             ltac:(discriminate) eq_refl).
Defined.

(** X11.  A second [subscribe] to a [mid] (other than ["__proto__"], on a map
    with the prototype of a plain object) replaces the stored handle and
    calls nothing on the handle it replaces.  Afterwards the
    [stream-remove] notification of that [mid] closes the second handle
    only, and [close()], whatever the closes of the handles do, calls
    [close] on the first handle only if that handle is the second one, is
    in the local-stream list or is stored under another key: the client
    has no way left to close a replaced handle. *)
Theorem resubscribe_leaks_handle (c : Client) (mid : string) (s1 s2 : Stream)
    (n : Notification) :
  mid ≠ "__proto__" → streams_proto c = None →
  let c2 := streams_set mid s2 (streams_set mid s1 c) in
  (subscribe_resolved mid s1 ;; subscribe_resolved mid s2) c = (Ok s2, c2, [])
  ∧ streams c2 !! mid = Some s2
  ∧ (method n = "stream-remove" → msi_mid (data n) = Some mid →
     onNotification n c2
     = (Ok tt, streams_delete mid c,
        [Emit (StreamRemove (Some s2) (msi_uid (data n))); StreamClose s2]))
  ∧ (∀ closing x, StreamClose x ∈ (close_with closing c2).2 →
          x = s2 ∨ x ∈ localStreams c
          ∨ ∃ k, k ≠ mid ∧ streams c !! k = Some x).
Proof.
  intros Hne Hp. cbv zeta. split; [|split; [|split]].
  - unfold bind.
    rewrite (subscribe_resolved_stores mid s1 c (or_intror (conj Hp Hne))).
    by rewrite (subscribe_resolved_stores mid s2 (streams_set mid s1 c)
                  (or_intror (conj Hp Hne))).
  - cbn. by rewrite lookup_insert_eq.
  - intros Hme Hmid. rewrite (onNotification_stream_remove n _ Hme), Hmid.
    change (prop_key (Some mid)) with mid.
    rewrite (streams_get_own mid _ s2) by (cbn; by rewrite lookup_insert_eq).
    unfold streams_delete, streams_set, set_streams. cbn.
    by rewrite !delete_insert_eq.
  - intros closing x. rewrite close_with_eq. cbn [snd].
    rewrite !elem_of_app, elem_of_close_calls.
    intros [[_ Hin]|[Hin|Hin]].
    + right. left. exact Hin.
    + destruct (locals_close closing _); [|by apply elem_of_nil in Hin].
      apply elem_of_close_calls in Hin as [_ Hin].
      apply elem_of_Object_values in Hin as [k Hk]. cbn in Hk.
      destruct (decide (k = mid)) as [->|Hk'].
      * rewrite lookup_insert_eq in Hk. left. congruence.
      * rewrite !lookup_insert_ne in Hk by done. right. right. eauto.
    + apply elem_of_cons in Hin as [Hx|Hin]; [done|].
      apply list_elem_of_singleton in Hin. done.
Qed.

Lemma resubscribe_leaks_handle_witness :
  onNotification stream_remove_m1
    (streams_set "m1" remote_9 (streams_set "m1" remote_7 client_r1))
  = (Ok tt, streams_delete "m1" client_r1,
     [Emit (StreamRemove (Some remote_9) "u2"); StreamClose remote_9]).
Proof.
  destruct (resubscribe_leaks_handle client_r1 "m1" remote_7 remote_9
              stream_remove_m1 ltac:(discriminate) eq_refl)
    as (_ & _ & H & _).
  exact (H eq_refl eq_refl).
Defined.

(** ** [join]: processing a response again, joining again *)

(** X12.  Processing the descriptors of a [join] response a second time (or
    after notifications that carried the same descriptors) leaves the
    client as the first pass left it, and emits every [stream-add] event
    again. *)
Theorem join_resolved_idempotent (c : Client) (ps : list MediaStreamInfo) :
  Forall carries_tracks ps →
  ∃ c' t,
    join_resolved (mkJoinData (Some ps)) c = (Ok tt, c', t)
    ∧ join_resolved (mkJoinData (Some ps)) c' = (Ok tt, c', t)
    ∧ t = omap announced ps.
Proof.
  intros Hps.
  destruct (forEach_join_pub ps c Hps) as (c' & Hrun & Hsame & Hreg).
  destruct (forEach_join_pub ps c' Hps) as (c'' & Hrun' & Hsame' & Hreg').
  exists c', (omap announced ps). unfold join_resolved.
  rewrite !try_catch_rethrow. cbn [pubs]. split; [done|]. split; [|done].
  rewrite Hrun'. do 2 f_equal. apply Client_eq; [done|].
  apply map_eq. intros k. rewrite Hreg', Hreg.
  by destruct (last (filter (names k) ps)).
Qed.

Lemma join_resolved_idempotent_witness :
  ∃ c', join_resolved (mkJoinData (Some [pub_m1; pub_no_mid])) c'
        = (Ok tt, c', [Emit (StreamAdd (Some "m1") "u2" None None)]).
Proof.
  destruct (join_resolved_idempotent client_r1 [pub_m1; pub_no_mid]
              carries_tracks_sample) as (c' & t & _ & Hrun & ->).
  exists c'. exact Hrun.
Defined.

(** X13.  [join] called without a token (or with an empty one) in a session that
    holds a token from an earlier [join] keeps that token: the [join]
    request itself carries no token, while the [broadcast], [leave] and
    [publish] calls that follow carry the new room together with the old
    token. *)
Theorem rejoin_keeps_old_token (c : Client) (r : string)
    (info token info' : option string) :
  truthy token = false → truthy (roomToken c) = true →
  let c1 := (join_begin r info token c).1.2 in
  (join_begin r info token c).2
  = [Request "join" {| p_rid := Some r; p_uid := uid c;
                       p_info := Some (default Guest info);
                       p_token := None |}]
  ∧ roomToken c1 = roomToken c
  ∧ (broadcast info' c1).2
    = [Request "broadcast" {| p_rid := Some r; p_uid := uid c;
                              p_info := info'; p_token := roomToken c |}]
  ∧ (leave_begin c1).2
    = [Request "leave" {| p_rid := Some r; p_uid := uid c;
                          p_info := None; p_token := roomToken c |}]
  ∧ (∀ stream, r ≠ "" →
       (publish stream c1).2 = [StreamPublish stream r (roomToken c)]).
Proof.
  intros Htok Hold. cbv zeta. rewrite join_begin_eq. cbn [fst snd].
  unfold join_request, joining, spread_token. rewrite Htok.
  split; [done|]. split; [done|].
  split; [|split].
  - unfold broadcast, bind, get, perform, spread_token. cbn. by rewrite Hold.
  - unfold leave_begin, bind, get, perform, spread_token. cbn.
    by rewrite Hold.
  - intros stream Hne.
    by rewrite (publish_joined stream (set_rid (Some r) c) r eq_refl Hne).
Qed.

Lemma rejoin_keeps_old_token_witness :
  (broadcast (Some "hi") (join_begin "r2" None None client_with_token).1.2).2
  = [Request "broadcast" {| p_rid := Some "r2"; p_uid := "u1";
                            p_info := Some "hi"; p_token := Some "secret" |}].
Proof.
  destruct (rejoin_keeps_old_token client_with_token "r2" None None
              (Some "hi") eq_refl eq_refl) as (_ & _ & H & _).
  exact H.
Defined.

(** ** The room along a run *)

Lemma same_session_keeps_room c c' : same_session c c' → keeps_room c c'.
Proof. unfold same_session, keeps_room. tauto. Qed.

Lemma join_pub_same_session (pub : MediaStreamInfo) (c : Client) :
  same_session c (state_after (join_pub pub) c).
Proof.
  unfold state_after. destruct (truthy (msi_mid pub)) eqn:Hm.
  - destruct (truthy_names pub Hm) as (m & Hmid & Hne).
    destruct (msi_tracks pub) as [t|] eqn:Ht.
    + rewrite (join_pub_add pub c m t Hmid Hne Ht).
      apply same_session_knownStreams_set.
    + rewrite (join_pub_fault pub c Hm Ht). apply same_session_refl.
  - rewrite (join_pub_skip pub c Hm). apply same_session_refl.
Qed.

Lemma forEach_join_pub_same_session (ps : list MediaStreamInfo) (c : Client) :
  same_session c (state_after (forEach ps join_pub) c).
Proof.
  revert c. induction ps as [|pub ps IH]; intros c.
  - apply same_session_refl.
  - pose proof (join_pub_same_session pub c) as Hpub. unfold state_after in *.
    cbn [forEach]. unfold bind.
    destruct (join_pub pub c) as [[[[]|e] c1] t1]; [|done].
    specialize (IH c1).
    destruct (forEach ps join_pub c1) as [[r c2] t2].
    by eapply same_session_trans.
Qed.

Lemma join_resolved_same_session (d : JoinData) (c : Client) :
  same_session c (state_after (join_resolved d) c).
Proof.
  unfold state_after, join_resolved. rewrite try_catch_rethrow.
  destruct (pubs d) as [ps|]; [|apply same_session_refl].
  apply forEach_join_pub_same_session.
Qed.

Lemma onNotification_keeps_room (n : Notification) (c : Client) :
  keeps_room c (state_after (onNotification n) c)
  ∧ localStreams (state_after (onNotification n) c) = localStreams c
  ∧ (streams c = ∅ → streams (state_after (onNotification n) c) = ∅).
Proof.
  unfold state_after.
  destruct (onNotification_cases n c)
    as [(r & t & Hrun & Ht)|[(m & tr & ev & Hrun)|(k & h & ev & Hh & Hrun)]];
    rewrite Hrun; cbn [fst snd]; try done.
  repeat split. intros Hempty. cbn. rewrite Hempty. apply delete_empty.
Qed.

Lemma publish_frame (stream : Stream) (c : Client) :
  keeps_room c (state_after (publish stream) c)
  ∧ streams (state_after (publish stream) c) = streams c
  ∧ (rid c = None → state_after (publish stream) c = c).
Proof.
  unfold state_after. destruct (truthy (rid c)) eqn:Hr.
  - apply truthy_spec in Hr as (r & Hr & Hne).
    rewrite (publish_joined stream c r Hr Hne). repeat split.
    intros Hnone. congruence.
  - by rewrite (publish_no_room stream c Hr).
Qed.

Lemma closed_frame (c : Client) :
  state_after close c = closed c.
Proof. unfold state_after. by rewrite close_eq. Qed.

(** The state [close()] leaves does not depend on what the closes of the
    handles do: a run takes [close] with every handle closing normally. *)
Lemma close_with_frame (closing : Stream → Result unit) (c : Client) :
  state_after (close_with closing) c = state_after close c.
Proof. unfold state_after. by rewrite close_eq, close_with_eq. Qed.

(** The two loops of [close()] write no field of the client: whatever
    runs between the [await]s of [close()], the client changes only in
    the lines after the [catch], and [DoClose] stands in a run at the
    place of these lines. *)
Lemma close_streams_frame (closing : Stream → Result unit) (c : Client) :
  state_after (close_locals closing) c = c
  ∧ state_after (close_remotes closing) c = c
  ∧ state_after (close_streams closing) c = c
  ∧ state_after close_clear c = state_after close c.
Proof.
  unfold state_after, close_streams, close_locals, close_remotes.
  unfold try_catch, bind, get. rewrite !promiseAllMap_close_handle.
  rewrite close_eq.
  destruct (settle_all closing (localStreams c)) as [[]|e];
    by destruct (settle_all closing (Object_values (streams c))) as [[]|e'].
Qed.

Lemma leave_settled_frame (response : Result unit) (c : Client) :
  state_after (leave_settled response) c = closed c.
Proof.
  pose proof (close_eq c) as Hc. unfold close in Hc.
  unfold state_after, leave_settled, leave_settled_with.
  unfold bind, try_catch, lift, ret.
  destruct response as [[]|e]; cbn;
    destruct (close_with closes_normally c) as [[r c2] t2];
    by injection Hc as -> -> ->.
Qed.

Lemma subscribe_resolved_frame (mid : string) (stream : Stream) (c : Client) :
  keeps_room c (state_after (subscribe_resolved mid stream) c)
  ∧ localStreams (state_after (subscribe_resolved mid stream) c)
    = localStreams c
  ∧ knownStreams (state_after (subscribe_resolved mid stream) c)
    = knownStreams c.
Proof.
  by destruct (subscribe_resolved_state mid stream c) as [->|[p ->]].
Qed.

(** What a step of a run does to the room. *)
Lemma run_room (a : Action) (s : Session) :
  match a with
  | DoJoinBegin r info token =>
      uid (client (run a s)) = uid (client s)
      ∧ rid (client (run a s)) = Some r
      ∧ roomToken (client (run a s))
        = (if truthy token then token else roomToken (client s))
  | _ => keeps_room (client s) (client (run a s))
  end.
Proof.
  destruct a; cbn [run client].
  - by destruct e.
  - unfold state_after. rewrite join_begin_eq. cbn [fst snd].
    unfold joining. by destruct (truthy token).
  - apply same_session_keeps_room, join_resolved_same_session.
  - done.
  - apply onNotification_keeps_room.
  - done.
  - apply publish_frame.
  - by destruct stream.
  - destruct (subscribe_begin mid (client s)) as [[res c'] t] eqn:Hrun.
    apply subscribe_begin_inv in Hrun as [-> _]. by destruct res.
  - apply subscribe_resolved_frame.
  - done.
  - done.
  - by rewrite leave_settled_frame.
  - by rewrite closed_frame.
Qed.

(** X14.  In a run of the client nothing but the first segment of [join] changes
    [rid] or the token, and nothing changes [uid]: once a [join] has
    begun, [rid] stays defined for good, through rejected joins, [leave]
    and [close] alike. *)
Theorem room_never_unset (a : Action) (s : Session) :
  uid (client (run a s)) = uid (client s)
  ∧ (not_join_begin a →
     rid (client (run a s)) = rid (client s)
     ∧ roomToken (client (run a s)) = roomToken (client s))
  ∧ (∀ r info token, a = DoJoinBegin r info token →
       rid (client (run a s)) = Some r)
  ∧ (is_Some (rid (client s)) → is_Some (rid (client (run a s)))).
Proof.
  pose proof (run_room a s) as H.
  destruct a; cbn [not_join_begin];
    try (destruct H as (Hu & Hr & Ht);
         split; [done|]; split; [done|]; split; [done|]; by rewrite Hr).
  destruct H as (Hu & Hr & Ht).
  split; [done|]. split; [done|]. split.
  - by intros r' info' token' [= <- _ _].
  - intros _. rewrite Hr. eauto.
Qed.

(** X15.  Whatever the run, also with teardowns that overlap pending
    subscriptions: a client that holds a local handle or a subscribed
    handle, or has a [subscribe] awaiting its stream, has begun a [join]
    ([rid] is defined). *)
Theorem handles_imply_joined (overlap : bool) (s : Session) :
  reachable overlap s →
  rid (client s) = None →
  localStreams (client s) = [] ∧ streams (client s) = ∅ ∧ awaiting s = [].
Proof.
  induction 1 as [u|s a Hs IH Hen]; [done|].
  pose proof (run_room a s) as Hroom.
  destruct a; try (destruct Hroom as (_ & Hr & _); rewrite Hr; intros Hnone;
                   destruct (IH Hnone) as (Hl & Hst & Haw)).
  - by destruct e.
  - destruct Hroom as (_ & Hr & _). by rewrite Hr.
  - pose proof (join_resolved_same_session d (client s))
      as (_ & _ & _ & Hl' & Hs' & _). cbn [run client awaiting].
    by rewrite Hl', Hs'.
  - done.
  - destruct (onNotification_keeps_room n (client s)) as (_ & Hl' & Hs').
    cbn [run client awaiting]. by rewrite Hl', (Hs' Hst).
  - done.
  - destruct (publish_frame stream (client s)) as (_ & _ & Hsame).
    cbn [run client awaiting]. by rewrite (Hsame Hnone).
  - cbn [run client awaiting]. destruct stream as [stream|]; [|done].
    cbn. by rewrite Hl.
  - cbn [run client awaiting].
    rewrite (subscribe_begin_no_room mid (client s))
      by (by rewrite Hnone). done.
  - cbn [enabled] in Hen. rewrite Haw in Hen. by apply elem_of_nil in Hen.
  - cbn [run client awaiting]. by rewrite Haw.
  - done.
  - cbn [run client awaiting]. by rewrite leave_settled_frame.
  - cbn [run client awaiting]. by rewrite closed_frame.
Qed.

Lemma handles_imply_joined_witness :
  localStreams (client (run (DoPublish local_3) (mkSession client_u1 []))) = [].
Proof.
  refine (proj1 (handles_imply_joined true
                   (run (DoPublish local_3) (mkSession client_u1 [])) _ _)).
  - apply reachable_run; [apply reachable_new | exact I].
  - reflexivity.
Defined.

(** ** The constructor *)

Lemma constructor_inv new_URL uuidv4 config c setup :
  constructor new_URL uuidv4 config = Ok (c, setup) →
  ∃ cfg h url u,
    config = Some cfg ∧ cfg_url cfg = Some h ∧ h ≠ "" ∧ new_URL h = Ok url
    ∧ c = new_Client u
    ∧ (∀ x, cfg_uid cfg = Some x → x ≠ "" → u = x)
    ∧ (truthy (cfg_uid cfg) = false → u = uuidv4).
Proof.
  unfold constructor. destruct config as [cfg|]; [|done].
  destruct (cfg_url cfg) as [h|] eqn:Hh; [|done].
  destruct (truthy (Some h)) eqn:Ht; [|done].
  apply truthy_spec in Ht as (h' & [= <-] & Hne).
  destruct (new_URL h) as [url|e] eqn:Hurl; [|done].
  intros [= <- _]. exists cfg, h, url. eexists.
  repeat split; try done.
  - intros x Hx Hne'. rewrite Hx. by destruct x.
  - intros Hu. destruct (cfg_uid cfg) as [x|]; [|done].
    cbn in Hu. by destruct x.
Qed.

(** X16.  The constructor throws a [TypeError] on an undefined config: it reads
    [config.uid] before its test of [config], so the error of that test is
    never raised for a missing config.  With a config it throws the error
    "Undefined config or config.url in ion-sdk." when [url] is undefined or
    empty, and the error of [new URL] when the url does not parse.
    Otherwise it builds a client that has joined no room and holds no
    stream, whose [uid] is the configured one when that is defined and not
    empty and the generated one if not, so never empty; the transport is
    opened on the url with [peer=uid] appended to its query, followed by
    [access_token] when one is configured. *)
Theorem constructor_outcome (new_URL : string → Result Url) (uuidv4 : string) :
  constructor new_URL uuidv4 None
  = Throw (TypeError "Cannot read properties of undefined (reading 'uid')")
  ∧ (∀ config, truthy (cfg_url config) = false →
       constructor new_URL uuidv4 (Some config)
       = Throw (Error "Undefined config or config.url in ion-sdk."))
  ∧ (∀ config h e, cfg_url config = Some h → h ≠ "" → new_URL h = Throw e →
       constructor new_URL uuidv4 (Some config) = Throw e)
  ∧ (∀ config h url,
       cfg_url config = Some h → h ≠ "" → new_URL h = Ok url →
       ∃ u turl rest,
         constructor new_URL uuidv4 (Some config)
         = Ok (new_Client u,
               NewWebSocketTransport turl (cfg_options config) :: rest)
         ∧ (∀ x, cfg_uid config = Some x → x ≠ "" → u = x)
         ∧ (truthy (cfg_uid config) = false → u = uuidv4)
         ∧ (uuidv4 ≠ "" → u ≠ "")
         ∧ href turl = href url
         ∧ searchParams turl
           = searchParams url ++ ("peer", u)
             :: match cfg_accessToken config with
                | Some tok => if truthy (Some tok)
                              then [("access_token", tok)] else []
                | None => []
                end
         ∧ Forall (λ ev, DispatchOn ev ∈ rest)
             ["open"; "disconnected"; "close"; "failed";
              "request"; "notification"]).
Proof.
  split; [done|]. split; [|split].
  - intros config Hu. unfold constructor.
    destruct (cfg_url config) as [h|]; [|done]. by rewrite Hu.
  - intros config h e Hh Hne Hurl. unfold constructor.
    by rewrite Hh, (truthy_Some_ne h Hne), Hurl.
  - intros config h url Hh Hne Hurl. unfold constructor.
    rewrite Hh, (truthy_Some_ne h Hne), Hurl.
    do 3 eexists. split; [reflexivity|].
    split; [|split; [|split; [|split; [|split]]]].
    + intros x Hx Hne'. rewrite Hx. cbv beta iota.
      by rewrite (truthy_Some_ne x Hne').
    + intros Hu. destruct (cfg_uid config) as [x|]; [|done]. by rewrite Hu.
    + intros Hgen. destruct (cfg_uid config) as [x|]; [|done].
      destruct (truthy (Some x)) eqn:Hx; [|done].
      by apply truthy_spec in Hx as (x' & [= <-] & Hx).
    + destruct (cfg_accessToken config) as [tok|]; [|done].
      by destruct (truthy (Some tok)).
    + destruct (cfg_accessToken config) as [tok|];
        [destruct (truthy (Some tok))|]; cbn; by rewrite <- ?app_assoc.
    + repeat constructor;
        destruct (cfg_rtc config) as [rtc|];
        try destruct (truthy (Some rtc)); cbn;
        rewrite ?elem_of_cons; tauto.
Qed.

Lemma constructor_outcome_witness :
  ∃ turl rest,
    constructor (λ h, Ok (mkUrl h [])) "generated"
      (Some {| cfg_url := Some "wss://sfu.example"; cfg_uid := Some "";
               cfg_options := None; cfg_rtc := None; cfg_loglevel := None;
               cfg_accessToken := Some "tok" |})
    = Ok (new_Client "generated", NewWebSocketTransport turl None :: rest)
    ∧ searchParams turl = [("peer", "generated"); ("access_token", "tok")].
Proof.
  destruct (constructor_outcome (λ h, Ok (mkUrl h [])) "generated")
    as (_ & _ & _ & H).
  destruct (H {| cfg_url := Some "wss://sfu.example"; cfg_uid := Some "";
                 cfg_options := None; cfg_rtc := None; cfg_loglevel := None;
                 cfg_accessToken := Some "tok" |}
              "wss://sfu.example" (mkUrl "wss://sfu.example" [])
              eq_refl ltac:(discriminate) eq_refl)
    as (u & turl & rest & Hrun & _ & Hgen & _ & _ & Hparams & _).
  pose proof (Hgen eq_refl) as Hu. subst u.
  exists turl, rest. split; [exact Hrun|]. rewrite Hparams. reflexivity.
Defined.

(** X17.  A client fresh from the constructor refuses [publish] and [subscribe]
    for want of a room, reports its streams as connected, sends its
    [broadcast] with an undefined [rid], and its [close()] calls [close] on
    no handle. *)
Theorem fresh_client_behaviour new_URL uuidv4 config c setup :
  constructor new_URL uuidv4 config = Ok (c, setup) →
  (∀ stream,
     publish stream c
     = (Throw (Error "You must join a room before publishing."), c, []))
  ∧ (∀ mid media,
       subscribe mid media c
       = (Throw (Error "You must join a room before subscribing."), c, []))
  ∧ streamsConnected c = true
  ∧ (∀ info,
       broadcast info c
       = (Ok tt, c,
          [Request "broadcast" {| p_rid := None; p_uid := uid c;
                                  p_info := info; p_token := None |}]))
  ∧ (close c).2 = [RemoveAllListeners; DispatchClose].
Proof.
  intros (cfg & h & url & u & _ & _ & _ & _ & -> & _)%constructor_inv.
  split; [done|]. split; [|done].
  intros mid media. unfold subscribe, bind.
  by rewrite (subscribe_begin_no_room mid (new_Client u) eq_refl).
Qed.

Lemma fresh_client_behaviour_witness :
  publish local_3 (new_Client "u9")
  = (Throw (Error "You must join a room before publishing."),
     new_Client "u9", []).
Proof.
  refine (proj1 (fresh_client_behaviour (λ h, Ok (mkUrl h [])) "generated"
                   (Some {| cfg_url := Some "wss://sfu.example";
                            cfg_uid := Some "u9"; cfg_options := None;
                            cfg_rtc := None; cfg_loglevel := None;
                            cfg_accessToken := None |})
                   (new_Client "u9") _ eq_refl) local_3).
Defined.

(** ** The registry along a run *)

(** X18.  Only the teardown ([close], and [leave] once its request has settled)
    removes registry entries: after any other segment of a method, and
    after any notification ([stream-remove] included), every [mid] that
    had a registry entry still has one. *)
Theorem registry_only_cleared_by_teardown (a : Action) (s : Session) :
  a ≠ DoClose → (∀ response, a ≠ DoLeaveSettled response) →
  ∀ k, is_Some (knownStreams (client s) !! k) →
       is_Some (knownStreams (client (run a s)) !! k).
Proof.
  intros Hclose Hleave k Hk.
  assert (∀ c', knownStreams c' = knownStreams (client s) →
                is_Some (knownStreams c' !! k)) as Hsame.
  { intros c' Hc'. by rewrite Hc'. }
  destruct a; cbn [run client].
  - apply Hsame. by destruct e.
  - apply Hsame. unfold state_after. rewrite join_begin_eq.
    apply joining_knownStreams.
  - by apply join_resolved_grows.
  - by apply Hsame.
  - destruct (onNotification_maps n (client s)) as [[_ Hg]|[Heq _]].
    + by apply Hg.
    + by apply Hsame.
  - by apply Hsame.
  - by apply publish_maps.
  - by apply unpublish_maps.
  - destruct (subscribe_begin mid (client s)) as [[res c'] t] eqn:Hrun.
    apply subscribe_begin_inv in Hrun as [-> _]. by destruct res.
  - apply Hsame, subscribe_resolved_frame.
  - by apply Hsame.
  - by apply Hsame.
  - by destruct (Hleave response).
  - done.
Qed.

Lemma registry_only_cleared_by_teardown_witness :
  is_Some (knownStreams
             (client (run (DoNotification stream_remove_m1)
                          (mkSession client_subscribed []))) !! "m1").
Proof.
  apply (registry_only_cleared_by_teardown
           (DoNotification stream_remove_m1)
           (mkSession client_subscribed []));
    [discriminate | discriminate | by eexists].
Defined.
